(** * Occlusion sensitivity

    A shallow embedding of [tf_explain/core/occlusion_sensitivity.py]: the
    class [OcclusionSensitivity] with its methods [explain] and
    [get_sensitivity_map].

    Python lists and numpy arrays are lists (a 3-dimensional image is a list
    of rows, each a list of pixels, each a list of channel values).  The
    keras model is a black box that may carry hidden state; every call of
    [model.predict] is recorded, so that the number and the arguments of the
    inference calls can be stated.  A raised exception is the result [None].
    The [print] calls and the [tqdm] progress bar only report and are left
    out. *)

From Stdlib Require Import Floats.
From stdpp Require Import base numbers option list.

(* 0.9 and 0.1 are not binary64 values; the nearest ones are meant. *)
#[local] Set Warnings "-inexact-float".

(** ** Python and numpy primitives *)

(** [math.ceil(a / b)] on a non-negative int [a] and a positive int [b]. *)
Definition ceil_div (a b : nat) : nat :=
  if decide (a `mod` b = 0) then a `div` b else S (a `div` b).

(** [range(start, stop, step)] for a positive [step]: CPython computes the
    length as the rounded-up quotient and the items by [start + i * step]. *)
Definition range (start stop step : nat) : list nat :=
  (λ i, start + i * step) <$> seq 0 (ceil_div (stop - start) step).

(** [enumerate(l)] *)
Definition enumerate {A} (l : list A) : list (nat * A) :=
  imap (λ i x, (i, x)) l.

(** [a.shape[0]] and [a.shape[1]] of an array kept as a list of rows.  An
    array without rows has no columns here; the code below makes no
    inference call and raises in [cv2.resize] for such an array, whatever
    its second dimension. *)
Definition shape0 {A} (a : list (list A)) : nat := length a.

Definition shape1 {A} (a : list (list A)) : nat :=
  match a with [] => 0 | row :: _ => length row end.

(** A numpy slice [start:stop] with non-negative bounds selects the indices
    [start <= i < stop] that exist. *)
Definition in_slice (start stop i : nat) : bool :=
  bool_decide (start ≤ i ∧ i < stop).

(** The bounds of the slice [start:stop] on an axis of length [len], as
    [slice.indices(len)] resolves them. *)
Definition slice_indices (start stop len : nat) : nat * nat :=
  (start `min` len, stop `min` len).

Section model.

Context {pixel score mstate heatmap grid label : Type}.

(** The grey value [127.5]. *)
Context (grey : pixel).

(** [0.0] and the subtraction of two confidence scores. *)
Context (zero : score) (sub : score → score → score).

(** The interpolation of [cv2.resize] (bilinear by default):
    [interpolate src height width r c] is the value at row [r] and column
    [c] of a destination of [height] rows and [width] columns. *)
Context (interpolate : list (list score) → nat → nat → nat → nat → score).

(** The display collaborators of [tf_explain.utils.display], which are not
    part of this module. *)
Context (heatmap_display : list (list score) → list (list (list pixel)) → nat → heatmap).
Context (grid_display : list heatmap → grid).

(** The shape of the array that [heatmap_display] returned. *)
Context (heatmap_shape : heatmap → list nat).

(** A numpy image of shape (height, width, channels), and a 2-dimensional
    array of scores. *)
Abbreviation Image := (list (list (list pixel))).

Abbreviation ndarray2 := (list (list score)).

(** Modelled from the spec: [tf_explain.utils.image.apply_grey_patch] is
    imported by the module but is not among the sources.  The spec: "accepts
    an image, top-left coordinates, and a patch size; returns a copy of the
    image with that square region overwritten with a uniform grey value",
    and boundary patches "are clipped by the underlying patch/array
    operations".  The square is the slice
    [top_left_y : top_left_y + patch_size] of the rows and
    [top_left_x : top_left_x + patch_size] of the columns, over all channels
    (x runs along the width, y along the height); indices of the slice that
    do not exist in the image are dropped. *)
Definition apply_grey_patch (image : Image)
    (top_left_x top_left_y patch_size : nat) : Image :=
  imap (λ r row,
    imap (λ c px,
      if in_slice top_left_y (top_left_y + patch_size) r
         && in_slice top_left_x (top_left_x + patch_size) c
      then (λ _, grey) <$> px
      else px) row) image.

(** A keras model: [predict batch batch_size] returns one vector of class
    confidences per image of the batch, and may read and change the hidden
    state of the model. *)
Record Model : Type := {
  predict : list Image → option nat → mstate → list (list score) * mstate
}.

(** One recorded call of [model.predict]. *)
Record call : Type := Call {
  call_batch : list Image;
  call_batch_size : option nat
}.

Record world : Type := World {
  model_state : mstate;
  calls : list call
}.

(** Computations that call the model and may raise. *)
Definition M (A : Type) : Type := world → option A * world.

#[export] Instance M_ret : MRet M := λ A a w, (Some a, w).

#[export] Instance M_bind : MBind M := λ A B f m w,
  match m w with
  | (Some a, w') => f a w'
  | (None, w') => (None, w')
  end.

Definition raise {A} : M A := λ w, (None, w).

Fixpoint foldM {A B} (f : A → B → M A) (a : A) (l : list B) : M A :=
  match l with
  | [] => mret a
  | x :: l => a' ← f a x; foldM f a' l
  end.

(** [model.predict(batch, batch_size=batch_size)] *)
Definition model_predict (model : Model) (batch : list Image)
    (batch_size : option nat) : M (list (list score)) := λ w,
  let '(out, s) := predict model batch batch_size (model_state w) in
  (Some out, World s (calls w ++ [Call batch batch_size])).

(** [l[i]] for [i >= 0]; an [IndexError] out of range. *)
Definition getitem {A} (l : list A) (i : nat) : M A := λ w, (l !! i, w).

(** [math.ceil(a / b)]; a [ZeroDivisionError] for [b = 0]. *)
Definition math_ceil_div (a b : nat) : M nat :=
  if decide (b = 0) then raise else mret (ceil_div a b).

(** [np.zeros(shape)] *)
Definition np_zeros (shape : nat * nat) : ndarray2 :=
  replicate shape.1 (replicate shape.2 zero).

(** [a[index] = v]; an [IndexError] out of range. *)
Definition np_setitem (a : ndarray2) (index : nat * nat) (v : score) : M ndarray2 :=
  match a !! index.1 with
  | Some row =>
      if decide (index.2 < length row)
      then mret (<[index.1 := <[index.2 := v]> row]> a)
      else raise
  | None => raise
  end.

(** [cv2.resize(src, dsize)]: OpenCV reads [dsize] as (width, height), so
    the result has [dsize[1]] rows and [dsize[0]] columns; an empty source
    or an empty [dsize] (no scale factors are given) is an error. *)
Definition cv2_resize (src : ndarray2) (dsize : nat * nat) : M ndarray2 :=
  let '(width, height) := dsize in
  if decide (shape0 src = 0 ∨ shape1 src = 0 ∨ width = 0 ∨ height = 0)
  then raise
  else mret ((λ r, (λ c, interpolate src height width r c) <$> seq 0 width)
               <$> seq 0 height).

(** [np.array(arrays)] on a list of arrays: they are stacked along a new
    first axis; a [ValueError] when their shapes differ (numpy 1.24 and
    later). *)
Definition np_array {A S} `{EqDecision S} (shape : A → S) (arrays : list A)
    : M (list A) :=
  match arrays with
  | [] => mret []
  | first :: rest =>
      if decide (Forall (λ a, shape a = shape first) rest) then mret arrays else raise
  end.

(** ** The class *)

Record OcclusionSensitivity : Type := { batch_size : option nat }.

Definition __init__ (batch_size : option nat) : OcclusionSensitivity :=
  {| batch_size := batch_size |}.

(** [cv2.COLORMAP_VIRIDIS], the default of [colormap] in [explain]. *)
Definition COLORMAP_VIRIDIS : nat := 16.

(** The coordinate list of [get_sensitivity_map] for a map of [n0] rows and
    [n1] columns. *)
Definition coordinates (n0 n1 : nat) : list (nat * nat) :=
  index_x ← seq 0 n1; index_y ← seq 0 n0; [(index_y, index_x)].

(** [model.predict(batch, batch_size=1)[0][class_index]] *)
Definition target_confidence (model : Model) (batch : list Image)
    (class_index : nat) : M score :=
  predictions ← model_predict model batch (Some 1);
  prediction ← getitem predictions 0;
  getitem prediction class_index.

(** The sweep of [get_sensitivity_map]: the two nested loops that fill
    [target_class_predictions]. *)
Definition sweep (model : Model) (image : Image)
    (class_index patch_size : nat) : M (list score) :=
  foldM (λ target_class_predictions '(index_y, top_left_y),
    foldM (λ target_class_predictions '(index_x, top_left_x),
      let patch := [apply_grey_patch image top_left_x top_left_y patch_size] in
      prediction ← target_confidence model patch class_index;
      mret (target_class_predictions ++ [prediction]))
      target_class_predictions
      (enumerate (range 0 (shape0 image) patch_size)))
    []
    (enumerate (range 0 (shape1 image) patch_size)).

(** [get_sensitivity_map] up to its last statement: the sensitivity map
    before it is resized.  [sensitivity_map.shape] is the pair [(n0, n1)]
    that [np.zeros] was given. *)
Definition sensitivity_grid (self : OcclusionSensitivity) (model : Model)
    (image : Image) (class_index patch_size : nat) : M ndarray2 :=
  n0 ← math_ceil_div (shape0 image) patch_size;
  n1 ← math_ceil_div (shape1 image) patch_size;
  let sensitivity_map := np_zeros (n0, n1) in
  let coordinates := coordinates n0 n1 in
  base_confidence ← target_confidence model [image] class_index;
  target_class_predictions ← sweep model image class_index patch_size;
  foldM (λ sensitivity_map '((index_y, index_x), confidence),
    np_setitem sensitivity_map (index_y, index_x) (sub base_confidence confidence))
    sensitivity_map
    (zip coordinates target_class_predictions).

Definition get_sensitivity_map (self : OcclusionSensitivity) (model : Model)
    (image : Image) (class_index patch_size : nat) : M ndarray2 :=
  sensitivity_map ← sensitivity_grid self model image class_index patch_size;
  cv2_resize sensitivity_map (shape0 image, shape1 image).

(** The pass of [get_sensitivity_map] that records the deltas: the loop
    over [zip(coordinates, target_class_predictions)] with its assignment
    [sensitivity_map[index_y, index_x] = base_confidence - confidence], as
    it stands at the end of [sensitivity_grid]. *)
Definition record_deltas (base_confidence : score) (sensitivity_map : ndarray2)
    (assignments : list ((nat * nat) * score)) : M ndarray2 :=
  foldM (λ sensitivity_map '((index_y, index_x), confidence),
    np_setitem sensitivity_map (index_y, index_x) (sub base_confidence confidence))
    sensitivity_map
    assignments.

Definition explain (self : OcclusionSensitivity)
    (validation_data : list Image * option (list label)) (model : Model)
    (class_index patch_size colormap : nat) : M grid :=
  let '(images, _) := validation_data in
  sensitivity_maps ←
    mapM (λ image, get_sensitivity_map self model image class_index patch_size) images;
  sensitivity_maps ←
    np_array (λ a : ndarray2, (shape0 a, shape1 a)) sensitivity_maps;
  _ ← getitem sensitivity_maps 0;
  heatmaps ←
    np_array heatmap_shape
      ((λ '(heatmap, image), heatmap_display heatmap image colormap)
         <$> zip sensitivity_maps images);
  _ ← getitem heatmaps 0;
  mret (grid_display heatmaps).

(** ** Vocabulary of the statements *)

(** What [model.predict(batch, batch_size=1)[0][class_index]] evaluates to
    when the model is in the hidden state [s]. *)
Definition answer (model : Model) (batch : list Image) (class_index : nat)
    (s : mstate) : option score :=
  prediction ← (predict model batch (Some 1) s).1 !! 0;
  prediction !! class_index.

(** The model answers [pred] on the single image [img], in some state. *)
Definition answers (model : Model) (class_index : nat) (img : Image)
    (pred : score) : Prop :=
  ∃ s, answer model [img] class_index s = Some pred.

(** The model has an output for the class, for every single image. *)
Definition valid_class (model : Model) (class_index : nat) : Prop :=
  ∀ img s, is_Some (answer model [img] class_index s).

(** [conf] is the confidence of the model for the class: what inference on
    a single image returns, whatever the hidden state. *)
Definition has_confidence (model : Model) (class_index : nat)
    (conf : Image → score) : Prop :=
  ∀ img s, answer model [img] class_index s = Some (conf img).

(** A deterministic model: the hidden state has no influence on the
    predictions. *)
Definition deterministic (model : Model) : Prop :=
  ∀ batch batch_size s1 s2,
    (predict model batch batch_size s1).1 = (predict model batch batch_size s2).1.

(** An inference call on a batch of exactly one image, with batch size 1. *)
Definition single_image_call (c : call) : Prop :=
  length (call_batch c) = 1 ∧ call_batch_size c = Some 1.

(** The calls a computation adds to the record all satisfy [P], whether it
    returns or raises. *)
Definition emits (P : call → Prop) {A} (m : M A) : Prop :=
  ∀ w, ∃ new, calls (m w).2 = calls w ++ new ∧ Forall P new.

(** The outcome of a computation does not depend on the state it starts
    in. *)
Definition stable {A} (m : M A) : Prop :=
  ∀ w1 w2, (m w1).1 = (m w2).1.

(** Every row of the image has the same number of pixels, as in a numpy
    array. *)
Definition rectangular (image : Image) : Prop :=
  Forall (λ row, length row = shape1 image) image.

(** The image with every value replaced by grey. *)
Definition occlude_all (image : Image) : Image :=
  (λ row : list (list pixel), (λ px : list pixel, (λ _, grey) <$> px) <$> row) <$> image.

(** The pixel at row [r] and column [c]. *)
Definition pixel_at (image : Image) (r c : nat) : option (list pixel) :=
  row ← image !! r; row !! c.

(** [a[iy, ix]] *)
Definition cell (a : ndarray2) (iy ix : nat) : option score :=
  row ← a !! iy; row !! ix.

(** An array of [n0] rows and [n1] columns. *)
Definition has_shape (n0 n1 : nat) (a : ndarray2) : Prop :=
  length a = n0 ∧ Forall (λ row, length row = n1) a.

(** The occluded images of the sweep, in the order of the two loops. *)
Definition patches (image : Image) (patch_size : nat) : list Image :=
  top_left_y ← range 0 (shape1 image) patch_size;
  top_left_x ← range 0 (shape0 image) patch_size;
  [apply_grey_patch image top_left_x top_left_y patch_size].

(** The record of an inference call on the single image [img]. *)
Definition call_on (img : Image) : call := Call [img] (Some 1).

End model.

(** ** A concrete instance

    Pixels and scores are binary64 floats; the hidden state of a model
    counts its calls. *)
Module Example.

(** A bilinear interpolation in binary64, after the scheme of OpenCV's
    [INTER_LINEAR]: destination index [d] of [n] reads the source position
    [(d + 0.5) * s / n - 0.5] of an axis of length [s], between the indices
    [i] and [i + 1] (clamped to the axis) with weight [t] on the second.
    It is an instance of the parameter [interpolate] for the examples and
    does not reproduce the arithmetic of [cv2.resize] (which rounds the
    weights to float32): the statements below use it only for the shape of
    the result and for maps that are all zero. *)
Definition linear_coefficient (s n d : nat) : nat * nat * float :=
  let num := (2 * d + 1) * s in
  if decide (num < n) then (0, 0, 0%float)
  else
    let i := (num - n) `div` (2 * n) in
    if decide (s - 1 ≤ i) then (s - 1, s - 1, 0%float)
    else (i, S i,
          PrimFloat.div (PrimFloat.of_uint63 (Uint63.of_Z (Z.of_nat ((num - n) `mod` (2 * n)))))
                        (PrimFloat.of_uint63 (Uint63.of_Z (Z.of_nat (2 * n))))).

Definition at2 (src : list (list float)) (r c : nat) : float :=
  default 0%float (row ← src !! r; row !! c).

Definition lerp (a b t : float) : float :=
  PrimFloat.add (PrimFloat.mul (PrimFloat.sub 1 t) a) (PrimFloat.mul t b).

Definition bilinear (src : list (list float)) (height width r c : nat) : float :=
  let '(r0, r1, tr) := linear_coefficient (shape0 src) height r in
  let '(c0, c1, tc) := linear_coefficient (shape1 src) width c in
  lerp (lerp (at2 src r0 c0) (at2 src r0 c1) tc)
       (lerp (at2 src r1 c0) (at2 src r1 c1) tc) tr.

Definition grey : float := 127.5%float.

(** A model of two classes that answers [0.1, 0.9] for every image. *)
Definition constant_model : @Model float float nat :=
  {| predict := λ batch _ s, ((λ _, [0.1; 0.9]%float) <$> batch, S s) |}.

(** A model of one class whose confidence is the first channel of the
    pixel at row 0, column 1, divided by 256. *)
Definition pixel_confidence (img : list (list (list float))) : float :=
  match img !! 0 with
  | Some row =>
      match row !! 1 with
      | Some px => PrimFloat.div (default 0%float (px !! 0)) 256
      | None => 0%float
      end
  | None => 0%float
  end.

Definition pixel_model : @Model float float nat :=
  {| predict := λ batch _ s, ((λ img, [pixel_confidence img]) <$> batch, S s) |}.

(** A 4x4 image of one channel, every value 100. *)
Definition uniform_image : list (list (list float)) :=
  replicate 4 (replicate 4 [100%float]).

(** A 2x2 image of one channel. *)
Definition square_image : list (list (list float)) :=
  [ [[0%float]; [64%float]];
    [[128%float]; [192%float]] ].

(** A 3x3 image of one channel, which a patch size of 2 does not divide. *)
Definition odd_image : list (list (list float)) :=
  replicate 3 (replicate 3 [100%float]).

(** An image of height 2 and width 4, one channel. *)
Definition wide_image : list (list (list float)) :=
  replicate 2 (replicate 4 [100%float]).

Definition self : OcclusionSensitivity := __init__ None.

Definition start : @world float nat := World 0 [].

End Example.

(** ** Closed forms of the results *)

Section closed_forms.

Context {pixel score : Type}.
Context (grey : pixel) (sub : score → score → score).
Context (interpolate : list (list score) → nat → nat → nat → nat → score).

(** The map before the resize as the code fills it, for a model with the
    confidence function [conf]: the cell in row [index_y] and column
    [index_x] is paired with the patch at
    [top_left_x = index_y * patch_size], [top_left_y = index_x * patch_size]. *)
Definition delta_grid (conf : list (list (list pixel)) → score)
    (image : list (list (list pixel))) (patch_size : nat) : list (list score) :=
  (λ index_y,
     (λ index_x,
        sub (conf image)
            (conf (apply_grey_patch grey image (index_y * patch_size)
                     (index_x * patch_size) patch_size)))
       <$> seq 0 (ceil_div (shape1 image) patch_size))
    <$> seq 0 (ceil_div (shape0 image) patch_size).

(** What [cv2.resize(src, image.shape[0:2])] returns when it succeeds. *)
Definition resized (src : list (list score)) (image : list (list (list pixel)))
    : list (list score) :=
  (λ r, (λ c, interpolate src (shape1 image) (shape0 image) r c) <$> seq 0 (shape0 image))
    <$> seq 0 (shape1 image).

(** The inference calls of one [get_sensitivity_map]: the baseline, then
    the occluded images in the order of the sweep. *)
Definition calls_of (image : list (list (list pixel))) (patch_size : nat)
    : list (@call pixel) :=
  call_on image :: (call_on <$> patches grey image patch_size).

(** An image with at least one row and one column. *)
Definition nonempty (image : list (list (list pixel))) : Prop :=
  0 < shape0 image ∧ 0 < shape1 image.

End closed_forms.

(** ** A concrete display *)
Module Scenario.

(** A heatmap that keeps what [heatmap_display] was given, and a grid that
    keeps the heatmaps in order. *)
Definition heatmap : Type :=
  list (list float) * list (list (list float)) * nat.

Definition heatmap_display (sensitivity_map : list (list float))
    (image : list (list (list float))) (colormap : nat) : heatmap :=
  (sensitivity_map, image, colormap).

Definition grid_display (heatmaps : list heatmap) : list heatmap := heatmaps.

(** The heatmap of an image is an RGB array of the height and width of the
    image. *)
Definition heatmap_shape (h : heatmap) : list nat :=
  [shape0 h.1.2; shape1 h.1.2; 3].

(** A second 4x4 image of one channel. *)
Definition dark_image : list (list (list float)) :=
  replicate 4 (replicate 4 [50%float]).

(** An image without rows. *)
Definition empty_image : list (list (list float)) := [].

End Scenario.

(** ** The primitives on small inputs *)

Example ceil_div_5_2 : ceil_div 5 2 = 3 ∧ ceil_div 4 2 = 2 ∧ ceil_div 0 2 = 0.
Proof. done. Qed.

Example range_0_5_2 : range 0 5 2 = [0; 2; 4] ∧ range 0 4 2 = [0; 2].
Proof. done. Qed.

Example enumerate_range_0_5_2 : enumerate (range 0 5 2) = [(0, 0); (1, 2); (2, 4)].
Proof. done. Qed.

Example coordinates_2_3 :
  coordinates 2 3 = [(0, 0); (1, 0); (0, 1); (1, 1); (0, 2); (1, 2)].
Proof. done. Qed.

(** The order of the sweep on a 2x2 image with patch size 1: the patch
    moves along x (the columns) first. *)
Example patches_square_image :
  patches Example.grey Example.square_image 1 =
    [ [ [[127.5]; [64]]; [[128]; [192]] ];
      [ [[0]; [127.5]]; [[128]; [192]] ];
      [ [[0]; [64]]; [[127.5]; [192]] ];
      [ [[0]; [64]]; [[128]; [127.5]] ] ]%float.
Proof. done. Qed.

(** A boundary patch is clipped: the patch of size 2 at the corner (2, 2)
    of a 3x3 image covers one pixel. *)
Example apply_grey_patch_clipped :
  apply_grey_patch Example.grey Example.odd_image 2 2 2 =
    [ [[100]; [100]; [100]];
      [[100]; [100]; [100]];
      [[100]; [100]; [127.5]] ]%float.
Proof. done. Qed.

(** The bilinear interpolation of the instance, from 2x2 to 4x4. *)
Example bilinear_2_to_4 :
  (λ r, Example.bilinear [[0; 1]; [2; 3]]%float 4 4 r <$> seq 0 4) <$> seq 0 4 =
    [ [0; 0.25; 0.75; 1];
      [0.5; 0.75; 1.25; 1.5];
      [1.5; 1.75; 2.25; 2.5];
      [2; 2.25; 2.75; 3] ]%float.
Proof. vm_compute. done. Qed.

(** ** Arithmetic of the grid *)

(** [ceil_div a b] is the rounded-up quotient: the least [n] with
    [a <= n * b]. *)
Lemma ceil_div_spec a b :
  0 < b → a ≤ ceil_div a b * b ∧ ceil_div a b * b < a + b.
Proof.
  intros Hb. unfold ceil_div.
  pose proof (Nat.div_mod_eq a b) as Hdm.
  pose proof (Nat.mod_upper_bound a b ltac:(lia)) as Hlt.
  destruct (decide (a `mod` b = 0)); nia.
Qed.

Lemma ceil_div_least a b n : 0 < b → a ≤ n * b → ceil_div a b ≤ n.
Proof. intros Hb Hn. pose proof (ceil_div_spec a b Hb). nia. Qed.

Lemma ceil_div_lt a b i : 0 < b → i < ceil_div a b → i * b < a.
Proof. intros Hb Hi. pose proof (ceil_div_spec a b Hb). nia. Qed.

Lemma ceil_div_self b : 0 < b → ceil_div b b = 1.
Proof.
  intros Hb. pose proof (ceil_div_spec b b Hb).
  assert (ceil_div b b ≤ 1) by (apply ceil_div_least; lia). nia.
Qed.

Lemma ceil_div_pos a b : 0 < b → 0 < a → 0 < ceil_div a b.
Proof. intros Hb Ha. pose proof (ceil_div_spec a b Hb). nia. Qed.

Lemma range_0 stop step :
  range 0 stop step = (λ i, i * step) <$> seq 0 (ceil_div stop step).
Proof. unfold range. by rewrite Nat.sub_0_r. Qed.

(** ** Reasoning about computations *)

Section monad.

Context {pixel mstate : Type}.

Abbreviation M := (@M pixel mstate).
Abbreviation world := (@world pixel mstate).

Lemma bind_returns {A B} (m : M A) (f : A → M B) (w w' : world) a :
  m w = (Some a, w') → (m ≫= f) w = f a w'.
Proof. unfold mbind, M_bind. by intros ->. Qed.

Lemma emits_ret P {A} (a : A) : emits P (mret a : M A).
Proof. intros w. exists []. by rewrite app_nil_r. Qed.

Lemma emits_raise P {A} : emits P (raise : M A).
Proof. intros w. exists []. by rewrite app_nil_r. Qed.

Lemma emits_getitem P {A} (l : list A) i : emits P (getitem l i : M A).
Proof. intros w. exists []. by rewrite app_nil_r. Qed.

Lemma emits_bind P {A B} (m : M A) (f : A → M B) :
  emits P m → (∀ a, emits P (f a)) → emits P (m ≫= f).
Proof.
  intros Hm Hf w. destruct (Hm w) as (new & Hc & Hnew).
  unfold mbind, M_bind. destruct (m w) as [[a|] w1]; simpl in *; [|by eauto].
  destruct (Hf a w1) as (new' & Hc' & Hnew').
  exists (new ++ new'). rewrite Hc', Hc, (assoc_L (++)). split; [done|].
  by apply Forall_app.
Qed.

Lemma emits_foldM P {A B} (f : A → B → M A) l :
  (∀ a x, emits P (f a x)) → ∀ a, emits P (foldM f a l).
Proof.
  intros Hf. induction l as [|x l IH]; intros a; simpl.
  - apply emits_ret.
  - apply emits_bind; auto.
Qed.

Lemma emits_mapM P {A B} (f : A → M B) l :
  (∀ x, emits P (f x)) → emits P (mapM f l).
Proof.
  intros Hf. induction l as [|x l IH]; simpl.
  - apply emits_ret.
  - apply emits_bind; [done|]. intros y.
    apply emits_bind; [done|]. intros k. apply emits_ret.
Qed.

Lemma stable_ret {A} (a : A) : stable (mret a : M A).
Proof. done. Qed.

Lemma stable_raise {A} : stable (raise : M A).
Proof. done. Qed.

Lemma stable_getitem {A} (l : list A) i : stable (getitem l i : M A).
Proof. done. Qed.

Lemma stable_bind {A B} (m : M A) (f : A → M B) :
  stable m → (∀ a, stable (f a)) → stable (m ≫= f).
Proof.
  intros Hm Hf w1 w2. specialize (Hm w1 w2). unfold mbind, M_bind.
  destruct (m w1) as [[a1|] w1'], (m w2) as [[a2|] w2']; simplify_eq/=; [|done].
  apply Hf.
Qed.

Lemma stable_foldM {A B} (f : A → B → M A) l :
  (∀ a x, stable (f a x)) → ∀ a, stable (foldM f a l).
Proof.
  intros Hf. induction l as [|x l IH]; intros a; simpl.
  - apply stable_ret.
  - apply stable_bind; auto.
Qed.

Lemma stable_mapM {A B} (f : A → M B) l :
  (∀ x, stable (f x)) → stable (mapM f l).
Proof.
  intros Hf. induction l as [|x l IH]; simpl.
  - apply stable_ret.
  - apply stable_bind; [done|]. intros y.
    apply stable_bind; [done|]. intros k. apply stable_ret.
Qed.

End monad.

(** ** Lists built by nested comprehensions *)

Lemma fmap_list_bind {A B C} (f : B → C) (g : A → list B) (l : list A) :
  f <$> (l ≫= g) = l ≫= (λ x, f <$> g x).
Proof.
  induction l as [|x l IH]; [done|].
  by rewrite !bind_cons, fmap_app, IH.
Qed.

Lemma enumerate_bind {A B} (f : nat → A → list B) (g : A → list B) (l : list A) :
  (∀ i x, f i x = g x) →
  enumerate l ≫= (λ '(i, x), f i x) = l ≫= g.
Proof.
  intros Hfg. unfold enumerate.
  assert (∀ h : nat → nat,
             imap (λ i x, (h i, x)) l ≫= (λ '(i, x), f i x) = l ≫= g) as Hgen.
  { induction l as [|x l IH]; intros h; [done|].
    rewrite imap_cons, !bind_cons, Hfg. f_equal. apply (IH (h ∘ S)). }
  apply (Hgen id).
Qed.

Lemma length_pairs {B} (f : nat * nat → B) n m :
  length (a ← seq 0 n; b ← seq 0 m; [f (a, b)]) = n * m.
Proof.
  induction n as [|n IH]; [done|].
  rewrite seq_S, bind_app, length_app, IH, bind_singleton. simpl.
  assert (∀ l : list nat, length (l ≫= λ b, [f (n, b)]) = length l) as ->.
  { induction l as [|x l IHl]; [done|]. rewrite bind_cons. simpl. by rewrite IHl. }
  rewrite length_seq. lia.
Qed.

Lemma pairs_fmap {B} (f : nat * nat → B) (l1 l2 : list nat) :
  (a ← l1; b ← l2; [f (a, b)]) = f <$> (a ← l1; b ← l2; [(a, b)]).
Proof.
  rewrite fmap_list_bind. apply list_bind_ext; [|done]. intros a.
  rewrite fmap_list_bind. by apply list_bind_ext.
Qed.

Lemma elem_of_pairs (l1 l2 : list nat) a b :
  (a, b) ∈ (a ← l1; b ← l2; [(a, b)]) ↔ a ∈ l1 ∧ b ∈ l2.
Proof.
  rewrite list_elem_of_bind. split.
  - intros (a' & Hb & Ha). apply list_elem_of_bind in Hb as (b' & Heq & Hb).
    apply list_elem_of_singleton in Heq. by simplify_eq.
  - intros [Ha Hb]. exists a. split; [|done].
    apply list_elem_of_bind. exists b. split; [|done]. by apply list_elem_of_singleton.
Qed.

Lemma NoDup_pairs (l1 l2 : list nat) :
  NoDup l1 → NoDup l2 → NoDup (a ← l1; b ← l2; [(a, b)]).
Proof.
  intros H1 H2. apply NoDup_bind; [| |done].
  - intros a1 a2 [a b] _ _ Hin1 Hin2.
    apply list_elem_of_bind in Hin1 as (? & ?%list_elem_of_singleton & _).
    apply list_elem_of_bind in Hin2 as (? & ?%list_elem_of_singleton & _).
    congruence.
  - intros a _. apply NoDup_bind; [| |done].
    + intros b1 b2 y _ _ ?%list_elem_of_singleton ?%list_elem_of_singleton.
      congruence.
    + intros b _. apply NoDup_singleton.
Qed.

(** The coordinate list visits the columns in order and, within a column,
    the rows in order. *)
Lemma coordinates_pairs n0 n1 :
  coordinates n0 n1 = (λ '(a, b), (b, a)) <$> (a ← seq 0 n1; b ← seq 0 n0; [(a, b)]).
Proof. unfold coordinates. by rewrite <-(pairs_fmap (λ '(a, b), (b, a))). Qed.

Lemma length_coordinates n0 n1 : length (coordinates n0 n1) = n1 * n0.
Proof. apply (length_pairs (λ '(a, b), (b, a))). Qed.

Lemma elem_of_coordinates n0 n1 iy ix :
  (iy, ix) ∈ coordinates n0 n1 ↔ iy < n0 ∧ ix < n1.
Proof.
  rewrite coordinates_pairs, list_elem_of_fmap. split.
  - intros ([a b] & ? & [Ha Hb]%elem_of_pairs). simplify_eq.
    apply elem_of_seq in Ha, Hb. lia.
  - intros [Hy Hx]. exists (ix, iy). split; [done|].
    apply elem_of_pairs. rewrite !elem_of_seq. lia.
Qed.

Lemma NoDup_coordinates n0 n1 : NoDup (coordinates n0 n1).
Proof.
  rewrite coordinates_pairs. apply NoDup_fmap_2.
  - intros [a b] [a' b'] ?. by simplify_eq.
  - apply NoDup_pairs; apply NoDup_seq.
Qed.

(** ** The sweep *)

Section sweep.

Context {pixel score mstate : Type}.
Context (grey : pixel).

Abbreviation Image := (list (list (list pixel))).
Abbreviation Model := (@Model pixel score mstate).
Abbreviation world := (@world pixel mstate).
Abbreviation M := (@M pixel mstate).

Implicit Types (model : Model) (image img : Image) (w : world).

(** One inference: its result is the answer of the model in its current
    state, and the call is recorded. *)
Lemma target_confidence_run model batch class_index w :
  target_confidence model batch class_index w =
    (answer model batch class_index (model_state w),
     World (predict model batch (Some 1) (model_state w)).2
           (calls w ++ [Call batch (Some 1)])).
Proof.
  unfold target_confidence, model_predict, answer, getitem, mbind, M_bind.
  destruct (predict model batch (Some 1) (model_state w)) as [out s]; simpl.
  by destruct (out !! 0).
Qed.

(** The occluded images, by grid cell: the cell [b] of the inner loop and
    [a] of the outer loop has its patch at [top_left_x = b * patch_size] and
    [top_left_y = a * patch_size]. *)
Lemma patches_pairs image patch_size :
  patches grey image patch_size =
    (λ '(a, b), apply_grey_patch grey image (b * patch_size) (a * patch_size) patch_size)
      <$> (a ← seq 0 (ceil_div (shape1 image) patch_size);
           b ← seq 0 (ceil_div (shape0 image) patch_size); [(a, b)]).
Proof.
  unfold patches. rewrite !range_0, list_fmap_bind.
  rewrite <-(pairs_fmap (λ '(a, b), apply_grey_patch grey image (b * patch_size) (a * patch_size) patch_size)).
  apply list_bind_ext; [|done]. intros a. simpl.
  by rewrite list_fmap_bind.
Qed.

Lemma length_patches image patch_size :
  length (patches grey image patch_size) =
    ceil_div (shape1 image) patch_size * ceil_div (shape0 image) patch_size.
Proof.
  rewrite patches_pairs, length_fmap.
  apply (length_pairs (λ x, x)).
Qed.

(** A loop that appends to the list of predictions. *)
Lemma foldM_append {X} (body : list score → X → M (list score))
    (g : X → list Image) (Q : Image → score → Prop) :
  (∀ acc x w, ∃ ys w',
      body acc x w = (Some (acc ++ ys), w') ∧
      calls w' = calls w ++ (call_on <$> g x) ∧
      Forall2 Q (g x) ys) →
  ∀ xs acc w, ∃ ys w',
    foldM body acc xs w = (Some (acc ++ ys), w') ∧
    calls w' = calls w ++ (call_on <$> (xs ≫= g)) ∧
    Forall2 Q (xs ≫= g) ys.
Proof.
  intros Hbody. induction xs as [|x xs IH]; intros acc w.
  - exists [], w. simpl. rewrite !app_nil_r. by repeat split.
  - destruct (Hbody acc x w) as (ys1 & w1 & Hrun1 & Hcalls1 & HQ1).
    destruct (IH (acc ++ ys1) w1) as (ys2 & w2 & Hrun2 & Hcalls2 & HQ2).
    exists (ys1 ++ ys2), w2. rewrite bind_cons, fmap_app. cbn [foldM].
    rewrite (bind_returns _ _ _ _ _ Hrun1), Hrun2, Hcalls2, Hcalls1, !(assoc_L (++)).
    repeat split. by apply Forall2_app.
Qed.

(** The sweep returns one prediction per occluded image, each the answer
    of the model on that image, and calls the model once per image. *)
Lemma sweep_run model image class_index patch_size :
  valid_class model class_index →
  ∀ w, ∃ preds w',
    sweep grey model image class_index patch_size w = (Some preds, w') ∧
    calls w' = calls w ++ (call_on <$> patches grey image patch_size) ∧
    Forall2 (answers model class_index) (patches grey image patch_size) preds.
Proof.
  intros Hvalid w. unfold sweep.
  set (inner := enumerate (range 0 (shape0 image) patch_size)).
  set (g_in := λ top_left_y : nat, λ '((_, top_left_x) : nat * nat),
         [apply_grey_patch grey image top_left_x top_left_y patch_size]).
  set (g_out := λ '((_, top_left_y) : nat * nat), inner ≫= g_in top_left_y).
  match goal with |- context [foldM ?f [] ?l w] =>
    destruct (foldM_append f g_out (answers model class_index)) with (xs := l) (acc := @nil score) (w := w)
      as (preds & w' & Hrun & Hcalls & HQ) end.
  { intros acc [index_y top_left_y] w0.
    apply (foldM_append _ (g_in top_left_y) (answers model class_index)).
    intros acc' [index_x top_left_x] w1.
    set (img := apply_grey_patch grey image top_left_x top_left_y patch_size).
    destruct (Hvalid img (model_state w1)) as [pred Hpred].
    eexists [pred], _. erewrite bind_returns.
    2:{ rewrite target_confidence_run. fold img. by rewrite Hpred. }
    split; [done|]. split; [done|]. simpl. repeat constructor. by exists (model_state w1). }
  assert (enumerate (range 0 (shape1 image) patch_size) ≫= g_out = patches grey image patch_size) as Heq.
  { unfold patches, g_out, inner.
    apply (enumerate_bind (λ _ top_left_y, _) (λ top_left_y, _)). intros _ top_left_y.
    apply (enumerate_bind (λ _ top_left_x, _) (λ top_left_x, _)). done. }
  exists preds, w'. rewrite Heq in Hcalls, HQ. done.
Qed.

End sweep.

(** ** The sensitivity map *)

Section grid.

Context {pixel score mstate : Type}.
Context (grey : pixel) (zero : score) (sub : score → score → score).
Context (interpolate : list (list score) → nat → nat → nat → nat → score).

Abbreviation Image := (list (list (list pixel))).
Abbreviation ndarray2 := (list (list score)).
Abbreviation Model := (@Model pixel score mstate).
Abbreviation world := (@world pixel mstate).
Abbreviation M := (@M pixel mstate).

Implicit Types (model : Model) (image img : Image) (w : world) (a : ndarray2).

Lemma np_zeros_shape n0 n1 : has_shape n0 n1 (np_zeros zero (n0, n1)).
Proof.
  split; [apply length_replicate|].
  apply Forall_replicate, length_replicate.
Qed.

(** An assignment within the shape succeeds, keeps the shape, stores the
    value and leaves every other cell as it was. *)
Lemma np_setitem_run a n0 n1 iy ix v w :
  has_shape n0 n1 a → iy < n0 → ix < n1 →
  ∃ a', np_setitem a (iy, ix) v w = (Some a', w) ∧
        has_shape n0 n1 a' ∧
        cell a' iy ix = Some v ∧
        (∀ iy' ix', (iy', ix') ≠ (iy, ix) → cell a' iy' ix' = cell a iy' ix').
Proof.
  intros [Hlen Hrows] Hy Hx. unfold np_setitem. simpl.
  destruct (lookup_lt_is_Some_2 a iy) as [row Hrow]; [lia|].
  assert (length row = n1) as Hrowlen.
  { by apply (Forall_lookup_1 _ _ _ _ Hrows Hrow). }
  rewrite Hrow. rewrite decide_True by lia.
  eexists. split; [done|]. split; [|split].
  - split; [by rewrite length_insert|].
    apply Forall_insert; [done|]. by rewrite length_insert.
  - unfold cell. rewrite list_lookup_insert_eq by lia. simpl.
    by rewrite list_lookup_insert_eq by lia.
  - intros iy' ix' Hne. unfold cell.
    destruct (decide (iy' = iy)) as [->|Hney].
    + rewrite list_lookup_insert_eq by lia. rewrite Hrow. simpl.
      apply list_lookup_insert_ne. congruence.
    + by rewrite list_lookup_insert_ne.
Qed.

(** The pass that records the deltas: with every coordinate within the
    shape and no coordinate repeated, it succeeds and each listed cell
    holds its delta. *)
Lemma record_deltas_run base (l : list ((nat * nat) * score)) n0 n1 :
  NoDup l.*1 → Forall (λ k, k.1 < n0 ∧ k.2 < n1) l.*1 →
  ∀ a w, has_shape n0 n1 a →
    ∃ a',
      foldM (λ sensitivity_map '((index_y, index_x), confidence),
               np_setitem sensitivity_map (index_y, index_x) (sub base confidence))
            a l w = (Some a', w) ∧
      has_shape n0 n1 a' ∧
      (∀ iy ix c, ((iy, ix), c) ∈ l → cell a' iy ix = Some (sub base c)) ∧
      (∀ iy ix, (iy, ix) ∉ l.*1 → cell a' iy ix = cell a iy ix).
Proof.
  induction l as [|[[iy0 ix0] c0] l IH]; intros Hnodup Hin a w Hshape.
  - exists a. split; [done|]. split; [done|]. split; [|done].
    intros ??? []%elem_of_nil.
  - rewrite fmap_cons in Hnodup, Hin. simpl in Hnodup, Hin.
    pose proof (NoDup_cons_1_1 _ _ Hnodup) as Hfresh.
    apply NoDup_cons_1_2 in Hnodup.
    apply Forall_cons_1 in Hin as [[Hy Hx] Hin]. simpl in Hy, Hx.
    destruct (np_setitem_run a n0 n1 iy0 ix0 (sub base c0) w Hshape Hy Hx)
      as (a1 & Hrun1 & Hshape1 & Hcell1 & Hother1).
    destruct (IH Hnodup Hin a1 w Hshape1) as (a' & Hrun & Hshape' & Hcells & Hother).
    exists a'. cbn [foldM]. rewrite (bind_returns _ _ _ _ _ Hrun1).
    split; [done|]. split; [done|]. split.
    + intros iy ix c [Heq|Hl]%elem_of_cons.
      * simplify_eq. by rewrite Hother.
      * by apply Hcells.
    + intros iy ix Hnotin. rewrite fmap_cons in Hnotin. simpl in Hnotin.
      apply not_elem_of_cons in Hnotin as [Hne Hnotin].
      rewrite Hother by done. by apply Hother1.
Qed.

Lemma math_ceil_div_run n patch_size w :
  0 < patch_size → math_ceil_div n patch_size w = (Some (ceil_div n patch_size), w).
Proof. intros Hp. unfold math_ceil_div. by rewrite decide_False by lia. Qed.

(** The result of [cv2.resize] on [src] for [dsize = (width, height)]. *)
Lemma cv2_resize_run (src : ndarray2) width height w :
  0 < shape0 src → 0 < shape1 src → 0 < width → 0 < height →
  cv2_resize interpolate src (width, height) w =
    (Some ((λ r, (λ c, interpolate src height width r c) <$> seq 0 width) <$> seq 0 height), w).
Proof.
  intros H0 H1 Hw Hh. unfold cv2_resize. by rewrite decide_False by lia.
Qed.

Lemma has_shape_shape0 n0 n1 a : has_shape n0 n1 a → shape0 a = n0.
Proof. by intros [? _]. Qed.

Lemma has_shape_shape1 n0 n1 a : has_shape n0 n1 a → 0 < n0 → shape1 a = n1.
Proof.
  intros [Hlen Hrows] Hpos. destruct a as [|row a]; simpl in *; [lia|].
  by apply Forall_cons_1 in Hrows as [? _].
Qed.

(** [get_sensitivity_map] up to the resize.  With a positive patch size
    and a model that has an output for the class, it returns a map of
    [ceil(H / patch_size)] rows and [ceil(W / patch_size)] columns after
    one inference on the image and one on each occluded image; the cell
    [(iy, ix)] holds the baseline minus the answer of the model on the image
    patched at [top_left_x = iy * patch_size], [top_left_y = ix * patch_size]. *)
Lemma sensitivity_grid_run self model image class_index patch_size :
  0 < patch_size → valid_class model class_index →
  ∀ w, ∃ base sensitivity_map w',
    sensitivity_grid grey zero sub self model image class_index patch_size w
      = (Some sensitivity_map, w') ∧
    answer model [image] class_index (model_state w) = Some base ∧
    has_shape (ceil_div (shape0 image) patch_size) (ceil_div (shape1 image) patch_size)
      sensitivity_map ∧
    calls w' = calls w ++ call_on image :: (call_on <$> patches grey image patch_size) ∧
    ∀ iy ix,
      iy < ceil_div (shape0 image) patch_size →
      ix < ceil_div (shape1 image) patch_size →
      ∃ c, cell sensitivity_map iy ix = Some (sub base c) ∧
           answers model class_index
             (apply_grey_patch grey image (iy * patch_size) (ix * patch_size) patch_size) c.
Proof.
  intros Hp Hvalid w.
  set (n0 := ceil_div (shape0 image) patch_size).
  set (n1 := ceil_div (shape1 image) patch_size).
  destruct (Hvalid image (model_state w)) as [base Hbase].
  set (w1 := World (predict model [image] (Some 1) (model_state w)).2
                   (calls w ++ [call_on image])).
  destruct (sweep_run grey model image class_index patch_size Hvalid w1)
    as (preds & w' & Hsweep & Hcalls & Hpreds).
  pose proof Hpreds as Hlen. apply Forall2_length in Hlen.
  rewrite length_patches in Hlen. fold n0 n1 in Hlen.
  set (l := zip (coordinates n0 n1) preds).
  assert (l.*1 = coordinates n0 n1) as Hkeys.
  { apply fst_zip. rewrite length_coordinates. lia. }
  destruct (record_deltas_run base l n0 n1) with (a := np_zeros zero (n0, n1)) (w := w')
    as (sm & Hrun & Hshape & Hcells & _).
  { rewrite Hkeys. apply NoDup_coordinates. }
  { rewrite Hkeys. apply Forall_forall. intros [iy ix] Hin.
    by apply elem_of_coordinates in Hin. }
  { apply np_zeros_shape. }
  exists base, sm, w'. split; [|split; [done|split; [done|split]]].
  - unfold sensitivity_grid.
    rewrite (bind_returns _ _ _ _ _ (math_ceil_div_run _ _ _ Hp)).
    rewrite (bind_returns _ _ _ _ _ (math_ceil_div_run _ _ _ Hp)).
    erewrite bind_returns; [|by rewrite target_confidence_run, Hbase].
    by rewrite (bind_returns _ _ _ _ _ Hsweep).
  - rewrite Hcalls. simpl. by rewrite <-(assoc_L (++)).
  - intros iy ix Hy Hx.
    rewrite patches_pairs in Hpreds. fold n0 n1 in Hpreds.
    rewrite Forall2_fmap_l in Hpreds.
    assert ((ix, iy) ∈ (a ← seq 0 n1; b ← seq 0 n0; [(a, b)])) as Hin.
    { apply elem_of_pairs. rewrite !elem_of_seq. lia. }
    apply list_elem_of_lookup in Hin as [k Hk].
    destruct (Forall2_lookup_l _ _ _ _ _ Hpreds Hk) as (c & Hc & Hans).
    exists c. split; [|done]. apply Hcells.
    apply (list_elem_of_lookup_2 _ k). unfold l.
    apply lookup_zip_with_Some. exists (iy, ix), c. split; [done|]. split; [|done].
    by rewrite coordinates_pairs, list_lookup_fmap, Hk.
Qed.

(** The whole of [get_sensitivity_map]: for an image that is not empty the
    resize succeeds, and [cv2.resize] being given [(H, W)] as its (width,
    height), the result has [W] rows and [H] columns. *)
Lemma get_sensitivity_map_run self model image class_index patch_size :
  0 < patch_size → 0 < shape0 image → 0 < shape1 image →
  valid_class model class_index →
  ∀ w, ∃ sensitivity_map w',
    sensitivity_grid grey zero sub self model image class_index patch_size w
      = (Some sensitivity_map, w') ∧
    get_sensitivity_map grey zero sub interpolate self model image class_index patch_size w
      = (Some ((λ r, (λ c, interpolate sensitivity_map (shape1 image) (shape0 image) r c)
                       <$> seq 0 (shape0 image)) <$> seq 0 (shape1 image)), w').
Proof.
  intros Hp H0 H1 Hvalid w.
  destruct (sensitivity_grid_run self model image class_index patch_size Hp Hvalid w)
    as (base & sm & w' & Hrun & _ & Hshape & _).
  exists sm, w'. split; [done|]. unfold get_sensitivity_map.
  rewrite (bind_returns _ _ _ _ _ Hrun). apply cv2_resize_run; try done.
  - rewrite (has_shape_shape0 _ _ _ Hshape). by apply ceil_div_pos.
  - rewrite (has_shape_shape1 _ _ _ Hshape) by (by apply ceil_div_pos).
    by apply ceil_div_pos.
Qed.

End grid.

(** ** The claims *)

Section claims.

Context {pixel score mstate heatmap grid label : Type}.
Context (grey : pixel) (zero : score) (sub : score → score → score).
Context (interpolate : list (list score) → nat → nat → nat → nat → score).
Context (heatmap_display : list (list score) → list (list (list pixel)) → nat → heatmap).
Context (grid_display : list heatmap → grid).
Context (heatmap_shape : heatmap → list nat).

Abbreviation Image := (list (list (list pixel))).
Abbreviation ndarray2 := (list (list score)).
Abbreviation Model := (@Model pixel score mstate).
Abbreviation world := (@world pixel mstate).
Abbreviation M := (@M pixel mstate).

Implicit Types (model : Model) (image img : Image) (w : world) (a : ndarray2).

Lemma has_confidence_valid model class_index conf :
  has_confidence model class_index conf → valid_class model class_index.
Proof. intros Hconf img s. rewrite (Hconf img s). by eexists. Qed.

Lemma has_confidence_answers model class_index conf img c :
  has_confidence model class_index conf →
  answers model class_index img c → c = conf img.
Proof. intros Hconf [s Hs]. rewrite Hconf in Hs. by simplify_eq. Qed.

(** An array whose cells all hold [v] is the constant array. *)
Lemma constant_array n0 n1 a (v : score) :
  has_shape n0 n1 a →
  (∀ iy ix, iy < n0 → ix < n1 → cell a iy ix = Some v) →
  a = replicate n0 (replicate n1 v).
Proof.
  intros [Hlen Hrows] Hcells. apply list_eq_same_length with n0;
    [by rewrite length_replicate|done|].
  intros iy row row' Hy Hrow Hrow'.
  apply lookup_replicate_1 in Hrow' as [-> _].
  assert (length row = n1) as Hrowlen by apply (Forall_lookup_1 _ _ _ _ Hrows Hrow).
  apply list_eq_same_length with n1; [by rewrite length_replicate|done|].
  intros ix x y Hx Hx' Hy'. apply lookup_replicate_1 in Hy' as [-> _].
  specialize (Hcells iy ix Hy Hx). unfold cell in Hcells.
  rewrite Hrow in Hcells. simpl in Hcells. congruence.
Qed.

Lemma fmap_seq_constant {B} (f : nat → B) n (v : B) :
  (∀ i, i < n → f i = v) → f <$> seq 0 n = replicate n v.
Proof.
  intros Hf. apply list_eq_same_length with n;
    [by rewrite length_replicate|by rewrite length_fmap, length_seq|].
  intros i x y Hi Hx Hy. apply lookup_replicate_1 in Hy as [-> _].
  rewrite list_lookup_fmap, lookup_seq_lt in Hx by done. simpl in Hx.
  simplify_eq. by apply Hf.
Qed.

(** The cells of the map before the resize, for a model with the
    confidence function [conf]: the cell in row [iy] and column [ix] holds
    the baseline minus the confidence on the image patched at
    [top_left_x = iy * patch_size] and [top_left_y = ix * patch_size]. *)
Lemma sensitivity_grid_cells self model image class_index patch_size conf :
  0 < patch_size → has_confidence model class_index conf →
  ∀ w, ∃ sensitivity_map w',
    sensitivity_grid grey zero sub self model image class_index patch_size w
      = (Some sensitivity_map, w') ∧
    has_shape (ceil_div (shape0 image) patch_size) (ceil_div (shape1 image) patch_size)
      sensitivity_map ∧
    calls w' = calls w ++ call_on image :: (call_on <$> patches grey image patch_size) ∧
    ∀ iy ix,
      iy < ceil_div (shape0 image) patch_size →
      ix < ceil_div (shape1 image) patch_size →
      cell sensitivity_map iy ix =
        Some (sub (conf image)
                  (conf (apply_grey_patch grey image (iy * patch_size) (ix * patch_size)
                           patch_size))).
Proof.
  intros Hp Hconf w.
  destruct (sensitivity_grid_run grey zero sub self model image class_index patch_size Hp
              (has_confidence_valid _ _ _ Hconf) w)
    as (base & sm & w' & Hrun & Hbase & Hshape & Hcalls & Hcells).
  exists sm, w'. repeat (split; [done|]). intros iy ix Hy Hx.
  destruct (Hcells iy ix Hy Hx) as (c & -> & Hc).
  rewrite Hconf in Hbase. simplify_eq.
  by rewrite (has_confidence_answers _ _ _ _ _ Hconf Hc).
Qed.

(** The shape of the returned map: as many rows as the image is wide and
    as many columns as it is high. *)
Lemma get_sensitivity_map_shape self model image class_index patch_size :
  0 < patch_size → 0 < shape0 image → 0 < shape1 image →
  valid_class model class_index →
  ∀ w, ∃ resized w',
    get_sensitivity_map grey zero sub interpolate self model image class_index patch_size w
      = (Some resized, w') ∧
    has_shape (shape1 image) (shape0 image) resized.
Proof.
  intros Hp H0 H1 Hvalid w.
  destruct (get_sensitivity_map_run grey zero sub interpolate self model image class_index
              patch_size Hp H0 H1 Hvalid w)
    as (sm & w' & _ & Hmap).
  eexists _, w'. split; [done|]. split.
  - by rewrite length_fmap, length_seq.
  - apply Forall_fmap, Forall_forall. intros r _. simpl.
    by rewrite length_fmap, length_seq.
Qed.

(** C3. For a model whose confidence for the class is the constant [c]
    whatever the input (with [c - c = 0], as for every finite float), and an
    interpolation that resizes the all-zero map to zeros, the map before the
    resize and the map returned by [get_sensitivity_map] are all zeros, for
    every image that is not empty and every positive patch size. *)
Theorem C3_constant_model_zero_map self model image class_index patch_size c :
  0 < patch_size → 0 < shape0 image → 0 < shape1 image →
  has_confidence model class_index (λ _, c) →
  sub c c = zero →
  (∀ r col, r < shape1 image → col < shape0 image →
     interpolate
       (np_zeros zero (ceil_div (shape0 image) patch_size, ceil_div (shape1 image) patch_size))
       (shape1 image) (shape0 image) r col = zero) →
  ∀ w, ∃ w',
    sensitivity_grid grey zero sub self model image class_index patch_size w
      = (Some (np_zeros zero (ceil_div (shape0 image) patch_size,
                              ceil_div (shape1 image) patch_size)), w') ∧
    get_sensitivity_map grey zero sub interpolate self model image class_index patch_size w
      = (Some (np_zeros zero (shape1 image, shape0 image)), w').
Proof.
  intros Hp H0 H1 Hconf Hsub Hinterp w.
  destruct (get_sensitivity_map_run grey zero sub interpolate self model image class_index
              patch_size Hp H0 H1 (has_confidence_valid _ _ _ Hconf) w)
    as (sm & w' & Hgrid & Hmap).
  destruct (sensitivity_grid_cells self model image class_index patch_size _ Hp Hconf w)
    as (sm' & w'' & Hgrid' & Hshape & _ & Hcells).
  rewrite Hgrid in Hgrid'. injection Hgrid' as <- <-.
  assert (sm = np_zeros zero (ceil_div (shape0 image) patch_size,
                               ceil_div (shape1 image) patch_size)) as ->.
  { apply constant_array; [done|]. intros iy ix Hy Hx.
    by rewrite (Hcells iy ix Hy Hx), Hsub. }
  exists w'. split; [done|]. rewrite Hmap. do 2 f_equal. unfold np_zeros. simpl.
  apply fmap_seq_constant. intros r Hr.
  apply fmap_seq_constant. intros col Hcol. by apply Hinterp.
Qed.

Lemma cv2_resize_world (src : ndarray2) dsize w :
  (cv2_resize interpolate src dsize w).2 = w.
Proof. unfold cv2_resize. destruct dsize. by destruct (decide _). Qed.

(** C4. For a positive patch size (and a model that has an output for the
    class), the map before the resize has [ceil(H / patch_size)] rows of
    [ceil(W / patch_size)] cells each, the numbers [n0] and [n1] being the
    rounded-up quotients; the model is called once on the image and then
    once per grid cell, on the occluded images of the sweep, so
    [1 + n0 * n1] times; the resize makes no further call. *)
Theorem C4_grid_cells_and_inference_count self model image class_index patch_size :
  0 < patch_size → valid_class model class_index →
  ∀ w, ∃ sensitivity_map w',
    sensitivity_grid grey zero sub self model image class_index patch_size w
      = (Some sensitivity_map, w') ∧
    has_shape (ceil_div (shape0 image) patch_size) (ceil_div (shape1 image) patch_size)
      sensitivity_map ∧
    (shape0 image ≤ ceil_div (shape0 image) patch_size * patch_size
       ∧ ceil_div (shape0 image) patch_size * patch_size < shape0 image + patch_size) ∧
    (shape1 image ≤ ceil_div (shape1 image) patch_size * patch_size
       ∧ ceil_div (shape1 image) patch_size * patch_size < shape1 image + patch_size) ∧
    calls w' = calls w ++ call_on image :: (call_on <$> patches grey image patch_size) ∧
    length (patches grey image patch_size)
      = ceil_div (shape0 image) patch_size * ceil_div (shape1 image) patch_size ∧
    length (calls w')
      = length (calls w) + 1
        + ceil_div (shape0 image) patch_size * ceil_div (shape1 image) patch_size ∧
    (get_sensitivity_map grey zero sub interpolate self model image class_index patch_size w).2
      = w'.
Proof.
  intros Hp Hvalid w.
  destruct (sensitivity_grid_run grey zero sub self model image class_index patch_size Hp
              Hvalid w)
    as (base & sm & w' & Hrun & _ & Hshape & Hcalls & _).
  exists sm, w'. split; [done|]. split; [done|].
  split; [by apply ceil_div_spec|]. split; [by apply ceil_div_spec|].
  split; [done|]. split; [rewrite length_patches; lia|]. split.
  - rewrite Hcalls, length_app. simpl. rewrite length_fmap, length_patches. lia.
  - unfold get_sensitivity_map, mbind, M_bind. rewrite Hrun. apply cv2_resize_world.
Qed.

(** A patch that covers the image greys all of it. *)
Lemma apply_grey_patch_all image patch_size :
  rectangular image →
  shape0 image ≤ patch_size → shape1 image ≤ patch_size →
  apply_grey_patch grey image 0 0 patch_size = occlude_all grey image.
Proof.
  intros Hrect H0 H1. unfold apply_grey_patch, occlude_all.
  rewrite <-imap_const. apply imap_ext. intros r row Hrow. simpl.
  assert (length row = shape1 image) as Hlen by apply (Forall_lookup_1 _ _ _ _ Hrect Hrow).
  apply lookup_lt_Some in Hrow. unfold shape0 in H0.
  rewrite <-imap_const. apply imap_ext. intros c px Hpx. simpl.
  apply lookup_lt_Some in Hpx. unfold in_slice.
  by rewrite !bool_decide_eq_true_2 by lia.
Qed.

(** C6. For an image whose height and width both equal the patch size, the
    map before the resize has exactly one cell, which holds the baseline
    confidence minus the confidence on the image occluded as a whole. *)
Theorem C6_single_cell self model image class_index patch_size conf :
  0 < patch_size →
  shape0 image = patch_size → shape1 image = patch_size → rectangular image →
  has_confidence model class_index conf →
  ∀ w, ∃ w',
    sensitivity_grid grey zero sub self model image class_index patch_size w
      = (Some [[sub (conf image) (conf (occlude_all grey image))]], w').
Proof.
  intros Hp H0 H1 Hrect Hconf w.
  destruct (sensitivity_grid_cells self model image class_index patch_size conf Hp Hconf w)
    as (sm & w' & Hrun & Hshape & _ & Hcells).
  rewrite H0, H1, ceil_div_self in Hshape, Hcells by done.
  specialize (Hcells 0 0 ltac:(lia) ltac:(lia)). simpl in Hcells.
  rewrite apply_grey_patch_all in Hcells by (done || lia).
  exists w'. rewrite Hrun. do 2 f_equal.
  rewrite (constant_array 1 1 sm (sub (conf image) (conf (occlude_all grey image))));
    [done|done|].
  intros iy ix Hy Hx. by replace iy with 0 by lia; replace ix with 0 by lia.
Qed.

(** The recording pass stopped after its first [k] assignments, from any
    array [a] of the shape of the map: it succeeds, and the cell of the
    [j]-th coordinate holds its delta when [j < k] and still holds what [a]
    held when [k <= j].  So the [j]-th assignment writes the cell of the
    [j]-th coordinate, no assignment before it has written that cell and
    none after it writes it again. *)
Lemma record_deltas_prefix base n0 n1 (preds : list score) a k w :
  length preds = n1 * n0 → has_shape n0 n1 a →
  ∃ a',
    record_deltas sub base a (take k (zip (coordinates n0 n1) preds)) w = (Some a', w) ∧
    has_shape n0 n1 a' ∧
    ∀ j iy ix confidence,
      coordinates n0 n1 !! j = Some (iy, ix) → preds !! j = Some confidence →
      cell a' iy ix = if decide (j < k) then Some (sub base confidence) else cell a iy ix.
Proof.
  intros Hlen Hshape.
  assert ((take k (zip (coordinates n0 n1) preds)).*1 = take k (coordinates n0 n1)) as Hkeys.
  { rewrite fmap_take. f_equal. apply fst_zip. rewrite length_coordinates. lia. }
  assert (NoDup (take k (zip (coordinates n0 n1) preds)).*1) as Hnodup.
  { rewrite Hkeys. apply (sublist_NoDup _ (coordinates n0 n1));
      [apply NoDup_coordinates|apply sublist_take]. }
  assert (Forall (λ c : nat * nat, c.1 < n0 ∧ c.2 < n1)
            (take k (zip (coordinates n0 n1) preds)).*1) as Hbounds.
  { rewrite Hkeys. apply Forall_take, Forall_forall. intros [iy ix] Hcoord.
    by apply elem_of_coordinates in Hcoord. }
  destruct (record_deltas_run sub base _ n0 n1 Hnodup Hbounds a w Hshape)
    as (a' & Hrun & Hshape' & Hin & Hout).
  exists a'. split; [done|]. split; [done|].
  intros j iy ix c Hj Hc. destruct (decide (j < k)) as [Hlt|Hge].
  - apply Hin. apply (list_elem_of_lookup_2 _ j). rewrite lookup_take_lt by done.
    apply lookup_zip_with_Some. by exists (iy, ix), c.
  - apply Hout. rewrite Hkeys. intros Hmem.
    apply list_elem_of_lookup in Hmem as [j' Hj'].
    apply lookup_take_Some in Hj' as [Hj' Hlt].
    pose proof (NoDup_lookup _ _ _ _ (NoDup_coordinates n0 n1) Hj Hj'). lia.
Qed.

(** C8. The coordinate list names every cell of the map exactly once and
    the sweep records as many predictions as there are coordinates.  The
    pass that records the deltas is the loop of [np_setitem] over the zip of
    the two lists, run on the zero map; its [j]-th assignment writes the
    cell of the [j]-th coordinate with the baseline minus the [j]-th
    prediction, that cell is untouched before it and is not written again
    after it, whatever array the pass starts from.  So the pass assigns
    every cell of the map exactly once, and the map it returns holds in each
    cell the delta of the prediction at the position of the cell in the
    coordinate list. *)
Theorem C8_each_cell_assigned_once self model image class_index patch_size :
  0 < patch_size → valid_class model class_index →
  let n0 := ceil_div (shape0 image) patch_size in
  let n1 := ceil_div (shape1 image) patch_size in
  NoDup (coordinates n0 n1) ∧
  (∀ iy ix, (iy, ix) ∈ coordinates n0 n1 ↔ iy < n0 ∧ ix < n1) ∧
  (∀ w, ∃ target_class_predictions w',
     sweep grey model image class_index patch_size w = (Some target_class_predictions, w') ∧
     length (coordinates n0 n1) = length target_class_predictions ∧
     (zip (coordinates n0 n1) target_class_predictions).*1 = coordinates n0 n1) ∧
  sensitivity_grid grey zero sub self model image class_index patch_size
    = (n0 ← math_ceil_div (shape0 image) patch_size;
       n1 ← math_ceil_div (shape1 image) patch_size;
       base_confidence ← target_confidence model [image] class_index;
       target_class_predictions ← sweep grey model image class_index patch_size;
       record_deltas sub base_confidence (np_zeros zero (n0, n1))
         (zip (coordinates n0 n1) target_class_predictions)) ∧
  ∀ w, ∃ base_confidence w1 target_class_predictions w' sensitivity_map,
    target_confidence model [image] class_index w = (Some base_confidence, w1) ∧
    sweep grey model image class_index patch_size w1 = (Some target_class_predictions, w') ∧
    length target_class_predictions = length (coordinates n0 n1) ∧
    record_deltas sub base_confidence (np_zeros zero (n0, n1))
      (zip (coordinates n0 n1) target_class_predictions) w' = (Some sensitivity_map, w') ∧
    sensitivity_grid grey zero sub self model image class_index patch_size w
      = (Some sensitivity_map, w') ∧
    (∀ j iy ix confidence,
       coordinates n0 n1 !! j = Some (iy, ix) →
       target_class_predictions !! j = Some confidence →
       cell sensitivity_map iy ix = Some (sub base_confidence confidence)) ∧
    ∀ a k, has_shape n0 n1 a →
      ∃ a',
        record_deltas sub base_confidence a
          (take k (zip (coordinates n0 n1) target_class_predictions)) w' = (Some a', w') ∧
        has_shape n0 n1 a' ∧
        ∀ j iy ix confidence,
          coordinates n0 n1 !! j = Some (iy, ix) →
          target_class_predictions !! j = Some confidence →
          cell a' iy ix
            = if decide (j < k) then Some (sub base_confidence confidence) else cell a iy ix.
Proof.
  intros Hp Hvalid n0 n1. split; [apply NoDup_coordinates|].
  split; [intros; apply elem_of_coordinates|]. split; [|split; [done|]].
  - intros w.
    destruct (sweep_run grey model image class_index patch_size Hvalid w)
      as (preds & w' & Hrun & _ & Hpreds).
    apply Forall2_length in Hpreds. rewrite length_patches in Hpreds. fold n0 n1 in Hpreds.
    exists preds, w'. split; [done|].
    assert (length (coordinates n0 n1) = length preds) as Hlen.
    { by rewrite length_coordinates. }
    split; [done|]. apply fst_zip. lia.
  - intros w.
    destruct (Hvalid image (model_state w)) as [base Hbase].
    set (w1 := World (predict model [image] (Some 1) (model_state w)).2
                     (calls w ++ [Call [image] (Some 1)])).
    assert (target_confidence model [image] class_index w = (Some base, w1)) as Hbaseline.
    { by rewrite target_confidence_run, Hbase. }
    destruct (sweep_run grey model image class_index patch_size Hvalid w1)
      as (preds & w' & Hsweep & _ & Hpreds).
    apply Forall2_length in Hpreds. rewrite length_patches in Hpreds. fold n0 n1 in Hpreds.
    assert (length preds = n1 * n0) as Hlen by done.
    destruct (record_deltas_prefix base n0 n1 preds (np_zeros zero (n0, n1))
                (length (zip (coordinates n0 n1) preds)) w' Hlen (np_zeros_shape zero n0 n1))
      as (sm & Hrun & _ & Hcells).
    rewrite take_ge in Hrun by done.
    exists base, w1, preds, w', sm. split; [done|]. split; [done|].
    split; [by rewrite length_coordinates|]. split; [done|]. split; [|split].
    + unfold sensitivity_grid.
      rewrite (bind_returns _ _ _ _ _ (math_ceil_div_run _ _ _ Hp)).
      rewrite (bind_returns _ _ _ _ _ (math_ceil_div_run _ _ _ Hp)).
      rewrite (bind_returns _ _ _ _ _ Hbaseline).
      rewrite (bind_returns _ _ _ _ _ Hsweep). exact Hrun.
    + intros j iy ix c Hj Hc. rewrite (Hcells j iy ix c Hj Hc).
      rewrite decide_True; [done|].
      rewrite length_zip, length_coordinates, Hlen.
      apply lookup_lt_Some in Hc. lia.
    + intros a k Hshape. by apply record_deltas_prefix.
Qed.

(** *** Calls and hidden state *)

Lemma emits_model_predict (P : call → Prop) model batch batch_size :
  P (Call batch batch_size) → emits P (model_predict model batch batch_size).
Proof.
  intros HP w. exists [Call batch batch_size]. unfold model_predict.
  destruct (predict model batch batch_size (model_state w)). simpl.
  split; [done|]. by constructor.
Qed.

Lemma emits_target_confidence (P : call → Prop) model batch class_index :
  P (Call batch (Some 1)) → emits P (target_confidence model batch class_index).
Proof.
  intros HP. unfold target_confidence.
  apply emits_bind; [by apply emits_model_predict|]. intros predictions.
  apply emits_bind; [apply emits_getitem|]. intros prediction. apply emits_getitem.
Qed.

Lemma emits_math_ceil_div (P : call → Prop) n patch_size :
  emits P (math_ceil_div n patch_size : M nat).
Proof.
  unfold math_ceil_div. destruct (decide _); [apply emits_raise|apply emits_ret].
Qed.

Lemma emits_np_setitem (P : call → Prop) a index v :
  emits P (np_setitem a index v : M ndarray2).
Proof.
  unfold np_setitem. destruct (a !! index.1); [|apply emits_raise].
  destruct (decide _); [apply emits_ret|apply emits_raise].
Qed.

Lemma emits_cv2_resize (P : call → Prop) a dsize :
  emits P (cv2_resize interpolate a dsize : M ndarray2).
Proof.
  unfold cv2_resize. destruct dsize.
  destruct (decide _); [apply emits_raise|apply emits_ret].
Qed.

Lemma emits_np_array (P : call → Prop) {A S} `{EqDecision S} (shape : A → S) arrays :
  emits P (np_array shape arrays : M (list A)).
Proof.
  unfold np_array. destruct arrays; [apply emits_ret|].
  destruct (decide _); [apply emits_ret|apply emits_raise].
Qed.

Lemma stable_np_array {A S} `{EqDecision S} (shape : A → S) arrays :
  stable (np_array shape arrays : M (list A)).
Proof. unfold np_array. destruct arrays; [done|]. by destruct (decide _). Qed.

Lemma single_image_call_on img : single_image_call (call_on img).
Proof. done. Qed.

Lemma emits_sweep model image class_index patch_size :
  emits single_image_call (sweep grey model image class_index patch_size).
Proof.
  unfold sweep. apply emits_foldM. intros acc [index_y top_left_y].
  apply emits_foldM. intros acc' [index_x top_left_x].
  apply emits_bind; [|intros; apply emits_ret].
  apply emits_target_confidence, single_image_call_on.
Qed.

Lemma emits_get_sensitivity_map self model image class_index patch_size :
  emits single_image_call
    (get_sensitivity_map grey zero sub interpolate self model image class_index patch_size).
Proof.
  unfold get_sensitivity_map, sensitivity_grid.
  apply emits_bind; [|intros; apply emits_cv2_resize].
  apply emits_bind; [apply emits_math_ceil_div|]. intros n0.
  apply emits_bind; [apply emits_math_ceil_div|]. intros n1.
  apply emits_bind; [apply emits_target_confidence, single_image_call_on|].
  intros base_confidence.
  apply emits_bind; [apply emits_sweep|]. intros target_class_predictions.
  apply emits_foldM. intros a [[index_y index_x] confidence]. apply emits_np_setitem.
Qed.

Lemma emits_explain self (validation_data : list Image * option (list label))
    model class_index patch_size colormap :
  emits single_image_call
    (explain grey zero sub interpolate heatmap_display grid_display heatmap_shape self validation_data
       model class_index patch_size colormap).
Proof.
  unfold explain. destruct validation_data as [images labels].
  apply emits_bind; [apply emits_mapM; intros; apply emits_get_sensitivity_map|].
  intros sensitivity_maps.
  apply emits_bind; [apply emits_np_array|]. intros stacked.
  apply emits_bind; [apply emits_getitem|]. intros _.
  apply emits_bind; [apply emits_np_array|]. intros heatmaps.
  apply emits_bind; [apply emits_getitem|]. intros _. apply emits_ret.
Qed.

Lemma stable_model_predict model batch batch_size :
  deterministic model → stable (model_predict model batch batch_size).
Proof.
  intros Hdet w1 w2. unfold model_predict.
  specialize (Hdet batch batch_size (model_state w1) (model_state w2)).
  destruct (predict model batch batch_size (model_state w1)),
           (predict model batch batch_size (model_state w2)).
  simpl in *. by subst.
Qed.

Lemma stable_target_confidence model batch class_index :
  deterministic model → stable (target_confidence model batch class_index).
Proof.
  intros Hdet. unfold target_confidence.
  apply stable_bind; [by apply stable_model_predict|]. intros predictions.
  apply stable_bind; [apply stable_getitem|]. intros prediction. apply stable_getitem.
Qed.

Lemma stable_math_ceil_div n patch_size : stable (math_ceil_div n patch_size : M nat).
Proof. unfold math_ceil_div. by destruct (decide _). Qed.

Lemma stable_np_setitem a index v : stable (np_setitem a index v : M ndarray2).
Proof.
  unfold np_setitem. destruct (a !! index.1); [|done]. by destruct (decide _).
Qed.

Lemma stable_cv2_resize a dsize : stable (cv2_resize interpolate a dsize : M ndarray2).
Proof. unfold cv2_resize. destruct dsize. by destruct (decide _). Qed.

Lemma stable_get_sensitivity_map self model image class_index patch_size :
  deterministic model →
  stable (get_sensitivity_map grey zero sub interpolate self model image class_index
            patch_size).
Proof.
  intros Hdet. unfold get_sensitivity_map, sensitivity_grid.
  apply stable_bind; [|intros; apply stable_cv2_resize].
  apply stable_bind; [apply stable_math_ceil_div|]. intros n0.
  apply stable_bind; [apply stable_math_ceil_div|]. intros n1.
  apply stable_bind; [by apply stable_target_confidence|]. intros base_confidence.
  apply stable_bind.
  - unfold sweep. apply stable_foldM. intros acc [index_y top_left_y].
    apply stable_foldM. intros acc' [index_x top_left_x].
    apply stable_bind; [by apply stable_target_confidence|]. intros. apply stable_ret.
  - intros target_class_predictions.
    apply stable_foldM. intros a [[index_y index_x] confidence]. apply stable_np_setitem.
Qed.

(** C7. With a deterministic model, the outcome of [get_sensitivity_map]
    (the returned map, or the failure) is the same from whatever state the
    invocation starts in; in particular a second invocation, which starts
    in the state the first one left, returns the map the first returned. *)
Theorem C7_deterministic_map self model image class_index patch_size :
  deterministic model →
  (∀ w1 w2,
     (get_sensitivity_map grey zero sub interpolate self model image class_index
        patch_size w1).1
     = (get_sensitivity_map grey zero sub interpolate self model image class_index
          patch_size w2).1) ∧
  (∀ w,
     let first := get_sensitivity_map grey zero sub interpolate self model image
                    class_index patch_size w in
     let second := get_sensitivity_map grey zero sub interpolate self model image
                     class_index patch_size first.2 in
     second.1 = first.1).
Proof.
  intros Hdet.
  pose proof (stable_get_sensitivity_map self model image class_index patch_size Hdet)
    as Hstable.
  split; [apply Hstable|]. intros w. simpl. apply Hstable.
Qed.

(** C9. Every inference call of [get_sensitivity_map] and of [explain], the
    baseline one included, is on a batch of exactly one image with batch
    size 1, whether the method returns or raises; and the [batch_size] given
    to the constructor is not used: two instances that differ in it run the
    same computations. *)
Theorem C9_single_image_batches_and_unused_batch_size
    (batch_size1 batch_size2 : option nat) model image
    (validation_data : list Image * option (list label))
    class_index patch_size colormap w :
  (∃ new,
     calls (get_sensitivity_map grey zero sub interpolate (__init__ batch_size1) model image
              class_index patch_size w).2 = calls w ++ new
     ∧ Forall single_image_call new) ∧
  (∃ new,
     calls (explain grey zero sub interpolate heatmap_display grid_display heatmap_shape
              (__init__ batch_size1) validation_data model class_index patch_size
              colormap w).2 = calls w ++ new
     ∧ Forall single_image_call new) ∧
  get_sensitivity_map grey zero sub interpolate (__init__ batch_size1) model image
    class_index patch_size w
  = get_sensitivity_map grey zero sub interpolate (__init__ batch_size2) model image
      class_index patch_size w ∧
  explain grey zero sub interpolate heatmap_display grid_display heatmap_shape (__init__ batch_size1)
    validation_data model class_index patch_size colormap w
  = explain grey zero sub interpolate heatmap_display grid_display heatmap_shape (__init__ batch_size2)
      validation_data model class_index patch_size colormap w.
Proof.
  split; [apply emits_get_sensitivity_map|]. split; [apply emits_explain|]. done.
Qed.

(** C10. [explain] never reads the labels: on two validation tuples with
    the same images it runs the same computation, whatever the labels. *)
Theorem C10_labels_never_read self (images : list Image)
    (labels1 labels2 : option (list label)) model class_index patch_size colormap w :
  explain grey zero sub interpolate heatmap_display grid_display heatmap_shape self (images, labels1)
    model class_index patch_size colormap w
  = explain grey zero sub interpolate heatmap_display grid_display heatmap_shape self (images, labels2)
      model class_index patch_size colormap w.
Proof. done. Qed.

(** *** The patch generator *)

Lemma pixel_at_apply_grey_patch image top_left_x top_left_y patch_size r c :
  pixel_at (apply_grey_patch grey image top_left_x top_left_y patch_size) r c =
    (λ px : list pixel,
       if in_slice top_left_y (top_left_y + patch_size) r
              && in_slice top_left_x (top_left_x + patch_size) c
           then (λ _, grey) <$> px else px) <$> pixel_at image r c.
Proof.
  unfold pixel_at, apply_grey_patch. rewrite list_lookup_imap.
  destruct (image !! r) as [row|]; [|done]. simpl.
  by rewrite list_lookup_imap.
Qed.

Lemma shape_apply_grey_patch image top_left_x top_left_y patch_size :
  rectangular image →
  shape0 (apply_grey_patch grey image top_left_x top_left_y patch_size) = shape0 image ∧
  shape1 (apply_grey_patch grey image top_left_x top_left_y patch_size) = shape1 image ∧
  rectangular (apply_grey_patch grey image top_left_x top_left_y patch_size).
Proof.
  intros Hrect.
  assert (shape1 (apply_grey_patch grey image top_left_x top_left_y patch_size)
          = shape1 image) as Hshape1.
  { destruct image as [|row image]; [done|]. unfold apply_grey_patch.
    rewrite imap_cons. simpl. by rewrite length_imap. }
  split; [apply length_imap|]. split; [done|].
  unfold rectangular. rewrite Hshape1. unfold apply_grey_patch.
  apply Forall_lookup. intros r row. rewrite list_lookup_imap.
  destruct (image !! r) as [row'|] eqn:Hrow; [|done]. simpl. intros [= <-].
  rewrite length_imap. apply (Forall_lookup_1 _ _ _ _ Hrect Hrow).
Qed.

Lemma pixel_at_Some image r c px :
  rectangular image → pixel_at image r c = Some px →
  r < shape0 image ∧ c < shape1 image.
Proof.
  intros Hrect. unfold pixel_at.
  destruct (image !! r) as [row|] eqn:Hrow; [|done]. simpl. intros Hpx.
  apply lookup_lt_Some in Hpx.
  rewrite (Forall_lookup_1 _ _ _ _ Hrect Hrow) in Hpx.
  apply lookup_lt_Some in Hrow. done.
Qed.

(** C5. A call of the patch generator, for every top-left corner and patch
    size and so for each step of the sweep, stays within the image: the
    slices it writes are clipped to the bounds of the image, the patched
    copy has the height and width of the image and no pixel outside them,
    the pixels inside the clipped square are grey and all others are the
    pixels of the image. *)
Theorem C5_patch_within_bounds image patch_size top_left_x top_left_y :
  rectangular image →
  let patched := apply_grey_patch grey image top_left_x top_left_y patch_size in
  let rows := slice_indices top_left_y (top_left_y + patch_size) (shape0 image) in
  let cols := slice_indices top_left_x (top_left_x + patch_size) (shape1 image) in
  (rows.1 ≤ rows.2 ∧ rows.2 ≤ shape0 image) ∧
  (cols.1 ≤ cols.2 ∧ cols.2 ≤ shape1 image) ∧
  (shape0 patched = shape0 image ∧ shape1 patched = shape1 image ∧ rectangular patched) ∧
  (∀ r c, shape0 image ≤ r ∨ shape1 image ≤ c → pixel_at patched r c = None) ∧
  (∀ r c,
     pixel_at patched r c =
       if bool_decide ((rows.1 ≤ r ∧ r < rows.2) ∧ (cols.1 ≤ c ∧ c < cols.2))
       then (λ px : list pixel, (λ _, grey) <$> px) <$> pixel_at image r c
       else pixel_at image r c) ∧
  Forall (λ img, shape0 img = shape0 image ∧ shape1 img = shape1 image ∧ rectangular img)
    (patches grey image patch_size).
Proof.
  intros Hrect patched rows cols. subst rows cols. unfold slice_indices. simpl.
  split; [lia|]. split; [lia|].
  split; [by apply shape_apply_grey_patch|]. split; [|split].
  - intros r c Hout. unfold patched. rewrite pixel_at_apply_grey_patch.
    destruct (pixel_at image r c) as [px|] eqn:Hpx; [|done].
    apply (pixel_at_Some _ _ _ _ Hrect) in Hpx. lia.
  - intros r c. unfold patched. rewrite pixel_at_apply_grey_patch.
    destruct (pixel_at image r c) as [px|] eqn:Hpx; [|by destruct (bool_decide _)].
    apply (pixel_at_Some _ _ _ _ Hrect) in Hpx. simpl. unfold in_slice.
    repeat case_bool_decide; simpl; try done; exfalso; lia.
  - unfold patches. apply Forall_forall. intros img Himg.
    apply list_elem_of_bind in Himg as (ty & Himg & _).
    apply list_elem_of_bind in Himg as (tx & Himg & _).
    apply list_elem_of_singleton in Himg as ->. by apply shape_apply_grey_patch.
Qed.

End claims.

(** C1 (the code departs from the claim). On the 2x2 image
    [Example.square_image] with patch size 1 and a model whose confidence
    reads the pixel at row 0, column 1, the region of the cell in row 0,
    column 1 is that pixel, and the baseline minus the confidence with it
    occluded is [-0.248046875].  The code stores [0] in that cell, the delta
    for the patch at row 1, column 0, and stores [-0.248046875] in the cell
    in row 1, column 0: the map is the transpose of the one claimed. *)
Theorem C1_cell_holds_delta_of_transposed_region :
  (sensitivity_grid Example.grey 0%float PrimFloat.sub Example.self Example.pixel_model
     Example.square_image 0 1 Example.start).1
    = Some [[0; 0]; [-0.248046875; 0]]%float ∧
  apply_grey_patch Example.grey Example.square_image 1 0 1
    = [ [[0]; [127.5]]; [[128]; [192]] ]%float ∧
  PrimFloat.sub (Example.pixel_confidence Example.square_image)
    (Example.pixel_confidence (apply_grey_patch Example.grey Example.square_image 1 0 1))
    = (-0.248046875)%float ∧
  apply_grey_patch Example.grey Example.square_image 0 1 1
    = [ [[0]; [64]]; [[127.5]; [192]] ]%float ∧
  PrimFloat.sub (Example.pixel_confidence Example.square_image)
    (Example.pixel_confidence (apply_grey_patch Example.grey Example.square_image 0 1 1))
    = 0%float ∧
  cell [[0; 0]; [-0.248046875; 0]]%float 0 1
    ≠ Some (PrimFloat.sub (Example.pixel_confidence Example.square_image)
              (Example.pixel_confidence
                 (apply_grey_patch Example.grey Example.square_image 1 0 1))).
Proof.
  repeat split; try (vm_compute; reflexivity).
  vm_compute. intros Heq. discriminate Heq.
Qed.

(** C2 (the code departs from the claim). On the image
    [Example.wide_image] of height 2 and width 4, [get_sensitivity_map]
    returns an array of height 4 and width 2: [cv2.resize] is given
    [image.shape[0:2]], that is (height, width), where it reads (width,
    height). *)
Theorem C2_resized_map_is_width_by_height :
  shape0 Example.wide_image = 2 ∧ shape1 Example.wide_image = 4 ∧
  ∃ sensitivity_map,
    (get_sensitivity_map Example.grey 0%float PrimFloat.sub Example.bilinear Example.self
       Example.constant_model Example.wide_image 1 2 Example.start).1
      = Some sensitivity_map ∧
    shape0 sensitivity_map = 4 ∧ shape1 sensitivity_map = 2.
Proof.
  split; [done|]. split; [done|].
  exists (replicate 4 (replicate 2 0%float)). by vm_compute.
Qed.

(** The end-to-end scenario of C3: the 4x4 image of one channel with every
    value 100, the model that returns 0.9 for the class whatever the input,
    and patch size 2; the 2x2 map before the resize and the resized 4x4 map
    are all zeros. *)
Lemma C3_constant_model_zero_map_witness :
  (0 < 2 ∧ 0 < shape0 Example.uniform_image ∧ 0 < shape1 Example.uniform_image) ∧
  has_confidence Example.constant_model 1 (λ _, 0.9%float) ∧
  PrimFloat.sub 0.9 0.9 = 0%float ∧
  (sensitivity_grid Example.grey 0%float PrimFloat.sub Example.self Example.constant_model
     Example.uniform_image 1 2 Example.start).1
    = Some [[0; 0]; [0; 0]]%float ∧
  (get_sensitivity_map Example.grey 0%float PrimFloat.sub Example.bilinear Example.self
     Example.constant_model Example.uniform_image 1 2 Example.start).1
    = Some (replicate 4 (replicate 4 0%float)).
Proof.
  assert (has_confidence Example.constant_model 1 (λ _, 0.9%float)) as Hconf by done.
  assert (PrimFloat.sub 0.9 0.9 = 0%float) as Hsub by reflexivity.
  split; [simpl; lia|]. split; [done|]. split; [done|].
  destruct (C3_constant_model_zero_map Example.grey 0%float PrimFloat.sub Example.bilinear
              Example.self Example.constant_model Example.uniform_image 1 2 0.9%float)
    with (w := Example.start) as (w' & Hgrid & Hmap);
    [simpl; lia|simpl; lia|simpl; lia|done|done| |].
  - intros r col Hr Hcol. simpl in Hr, Hcol.
    do 4 (destruct r as [|r];
          [do 4 (destruct col as [|col]; [vm_compute; reflexivity|]); lia|]).
    lia.
  - rewrite Hgrid, Hmap. done.
Defined.

Lemma constant_model_confidence : has_confidence Example.constant_model 1 (λ _, 0.9%float).
Proof. done. Qed.

Lemma pixel_model_confidence :
  has_confidence Example.pixel_model 0 Example.pixel_confidence.
Proof. done. Qed.

Lemma constant_model_deterministic : deterministic Example.constant_model.
Proof. done. Qed.

Lemma odd_image_rectangular : rectangular Example.odd_image.
Proof. repeat constructor. Defined.

Lemma square_image_rectangular : rectangular Example.square_image.
Proof. repeat constructor. Defined.

(** C4 on the 3x3 image with patch size 2, which does not divide 3: a map
    of 2 x 2 cells after 1 + 4 inference calls. *)
Lemma C4_grid_cells_and_inference_count_witness :
  0 < 2 ∧ valid_class Example.constant_model 1 ∧
  ∃ sensitivity_map w',
    sensitivity_grid Example.grey 0%float PrimFloat.sub Example.self Example.constant_model
      Example.odd_image 1 2 Example.start = (Some sensitivity_map, w') ∧
    has_shape 2 2 sensitivity_map ∧
    length (calls w') = 5.
Proof.
  assert (valid_class Example.constant_model 1) as Hvalid.
  { apply (has_confidence_valid _ _ _ constant_model_confidence). }
  split; [lia|]. split; [done|].
  destruct (C4_grid_cells_and_inference_count Example.grey 0%float PrimFloat.sub
              Example.bilinear Example.self Example.constant_model Example.odd_image 1 2
              ltac:(lia) Hvalid Example.start)
    as (sm & w' & Hrun & Hshape & _ & _ & _ & _ & Hcount & _).
  exists sm, w'. done.
Defined.

(** C5 on the 3x3 image with the patch of size 2 at the corner (2, 2): the
    patch is clipped to the one pixel at row 2, column 2. *)
Lemma C5_patch_within_bounds_witness :
  rectangular Example.odd_image ∧
  shape0 (apply_grey_patch Example.grey Example.odd_image 2 2 2) = 3 ∧
  shape1 (apply_grey_patch Example.grey Example.odd_image 2 2 2) = 3 ∧
  pixel_at (apply_grey_patch Example.grey Example.odd_image 2 2 2) 2 2
    = Some [127.5%float] ∧
  pixel_at (apply_grey_patch Example.grey Example.odd_image 2 2 2) 3 3 = None.
Proof.
  split; [apply odd_image_rectangular|].
  destruct (C5_patch_within_bounds Example.grey Example.odd_image 2 2 2
              odd_image_rectangular)
    as (_ & _ & (Hshape0 & Hshape1 & _) & Hout & Hpixel & _).
  split; [done|]. split; [done|]. split.
  - by rewrite Hpixel.
  - apply Hout. left. simpl. lia.
Defined.

(** C6 on the 2x2 image with patch size 2: the single cell holds
    [64/256 - 127.5/256]. *)
Lemma C6_single_cell_witness :
  (0 < 2 ∧ shape0 Example.square_image = 2 ∧ shape1 Example.square_image = 2) ∧
  rectangular Example.square_image ∧
  has_confidence Example.pixel_model 0 Example.pixel_confidence ∧
  (sensitivity_grid Example.grey 0%float PrimFloat.sub Example.self Example.pixel_model
     Example.square_image 0 2 Example.start).1
    = Some [[(-0.248046875)%float]].
Proof.
  split; [by repeat split; simpl; lia|].
  split; [apply square_image_rectangular|]. split; [apply pixel_model_confidence|].
  destruct (C6_single_cell Example.grey 0%float PrimFloat.sub Example.self
              Example.pixel_model Example.square_image 0 2 Example.pixel_confidence
              ltac:(lia) eq_refl eq_refl square_image_rectangular pixel_model_confidence
              Example.start) as (w' & Hrun).
  rewrite Hrun. by vm_compute.
Defined.

(** C7 for the constant model, from two different hidden states. *)
Lemma C7_deterministic_map_witness :
  deterministic Example.constant_model ∧
  (get_sensitivity_map Example.grey 0%float PrimFloat.sub Example.bilinear Example.self
     Example.constant_model Example.odd_image 1 2 Example.start).1
  = (get_sensitivity_map Example.grey 0%float PrimFloat.sub Example.bilinear Example.self
       Example.constant_model Example.odd_image 1 2 (World 7 [])).1.
Proof.
  split; [apply constant_model_deterministic|].
  apply (C7_deterministic_map Example.grey 0%float PrimFloat.sub Example.bilinear
           Example.self Example.constant_model Example.odd_image 1 2
           constant_model_deterministic).
Defined.

(** C8 on the 3x3 image with patch size 2: four coordinates, four
    predictions, and the map that the recording pass returns. *)
Lemma C8_each_cell_assigned_once_witness :
  0 < 2 ∧ valid_class Example.constant_model 1 ∧
  coordinates 2 2 = [(0, 0); (1, 0); (0, 1); (1, 1)] ∧
  ∃ target_class_predictions w',
    sweep Example.grey Example.constant_model Example.odd_image 1 2 Example.start
      = (Some target_class_predictions, w') ∧
    length target_class_predictions = 4 ∧
    ∃ base_confidence sensitivity_map w'',
      sensitivity_grid Example.grey 0%float PrimFloat.sub Example.self
        Example.constant_model Example.odd_image 1 2 Example.start
        = (Some sensitivity_map, w'') ∧
      cell sensitivity_map 1 0
        = (λ c, PrimFloat.sub base_confidence c) <$> (target_class_predictions !! 1).
Proof.
  assert (valid_class Example.constant_model 1) as Hvalid.
  { apply (has_confidence_valid _ _ _ constant_model_confidence). }
  split; [lia|]. split; [done|]. split; [done|].
  destruct (C8_each_cell_assigned_once Example.grey 0%float PrimFloat.sub Example.self
              Example.constant_model Example.odd_image 1 2 ltac:(lia) Hvalid)
    as (_ & _ & Hsweep & _ & Hpass).
  destruct (Hsweep Example.start) as (preds & w' & Hrun & Hlen & _).
  exists preds, w'. split; [done|]. split; [by rewrite <-Hlen|].
  destruct (Hpass Example.start)
    as (base & w1 & preds' & w'' & sm & _ & Hsweep' & Hlen' & _ & Hgrid & Hcells & _).
  assert (preds' = preds) as ->.
  { vm_compute in Hsweep', Hrun. congruence. }
  exists base, sm, w''. split; [done|].
  destruct (lookup_lt_is_Some_2 preds 1) as [c Hc]; [rewrite <-Hlen; simpl; lia|].
  rewrite Hc. simpl. by apply (Hcells 1).
Defined.

(** ** Further properties of [get_sensitivity_map] *)

Section further.

Context {pixel score mstate heatmap grid label : Type}.
Context (grey : pixel) (zero : score) (sub : score → score → score).
Context (interpolate : list (list score) → nat → nat → nat → nat → score).
Context (heatmap_display : list (list score) → list (list (list pixel)) → nat → heatmap).
Context (grid_display : list heatmap → grid).
Context (heatmap_shape : heatmap → list nat).

Abbreviation Image := (list (list (list pixel))).
Abbreviation ndarray2 := (list (list score)).
Abbreviation Model := (@Model pixel score mstate).
Abbreviation world := (@world pixel mstate).
Abbreviation M := (@M pixel mstate).

Implicit Types (model : Model) (image img : Image) (w : world) (a : ndarray2).

Lemma bind_raises {A B} (m : M A) (f : A → M B) w w' :
  m w = (None, w') → (m ≫= f) w = (None, w').
Proof. unfold mbind, M_bind. by intros ->. Qed.

Lemma ceil_div_0 b : 0 < b → ceil_div 0 b = 0.
Proof. intros Hb. pose proof (ceil_div_spec 0 b Hb). nia. Qed.

Lemma ceil_div_small (n b : nat) : 0 < n → n ≤ b → ceil_div n b = 1.
Proof.
  intros Hn Hnb. pose proof (ceil_div_spec n b ltac:(lia)).
  assert (ceil_div n b ≤ 1) by (apply ceil_div_least; lia). nia.
Qed.

(** Two arrays of one shape with the same cells are equal. *)
Lemma array_ext n0 n1 a b :
  has_shape n0 n1 a → has_shape n0 n1 b →
  (∀ iy ix, iy < n0 → ix < n1 → cell a iy ix = cell b iy ix) → a = b.
Proof.
  intros [Hlena Hrowsa] [Hlenb Hrowsb] Hcells.
  apply list_eq_same_length with n0; [done|done|].
  intros iy rowa rowb Hy Hrowa Hrowb.
  assert (length rowa = n1) by apply (Forall_lookup_1 _ _ _ _ Hrowsa Hrowa).
  assert (length rowb = n1) by apply (Forall_lookup_1 _ _ _ _ Hrowsb Hrowb).
  apply list_eq_same_length with n1; [done|done|].
  intros ix x y Hx Hxa Hxb. specialize (Hcells iy ix Hy Hx). unfold cell in Hcells.
  rewrite Hrowa, Hrowb in Hcells. simpl in Hcells. congruence.
Qed.

Lemma delta_grid_shape conf image patch_size :
  has_shape (ceil_div (shape0 image) patch_size) (ceil_div (shape1 image) patch_size)
    (delta_grid grey sub conf image patch_size).
Proof.
  unfold delta_grid. split; [by rewrite length_fmap, length_seq|].
  apply Forall_fmap, Forall_forall. intros iy _. simpl.
  by rewrite length_fmap, length_seq.
Qed.

Lemma cell_delta_grid conf image patch_size iy ix :
  iy < ceil_div (shape0 image) patch_size →
  ix < ceil_div (shape1 image) patch_size →
  cell (delta_grid grey sub conf image patch_size) iy ix =
    Some (sub (conf image)
              (conf (apply_grey_patch grey image (iy * patch_size) (ix * patch_size)
                       patch_size))).
Proof.
  intros Hy Hx. unfold cell, delta_grid.
  rewrite list_lookup_fmap, lookup_seq_lt by done. simpl.
  by rewrite list_lookup_fmap, lookup_seq_lt.
Qed.

(** The map before the resize and the calls made for it, in closed form. *)
Lemma sensitivity_grid_closed self model image class_index patch_size conf :
  0 < patch_size → has_confidence model class_index conf →
  ∀ w, ∃ w',
    sensitivity_grid grey zero sub self model image class_index patch_size w
      = (Some (delta_grid grey sub conf image patch_size), w') ∧
    calls w' = calls w ++ calls_of grey image patch_size.
Proof.
  intros Hp Hconf w.
  destruct (sensitivity_grid_cells grey zero sub self model image class_index patch_size
              conf Hp Hconf w) as (sm & w' & Hrun & Hshape & Hcalls & Hcells).
  exists w'. split; [|done]. rewrite Hrun. do 2 f_equal.
  apply (array_ext _ _ _ _ Hshape (delta_grid_shape conf image patch_size)).
  intros iy ix Hy Hx. by rewrite Hcells, cell_delta_grid.
Qed.

(** The returned map and the calls made for it, in closed form. *)
Lemma get_sensitivity_map_closed self model image class_index patch_size conf :
  0 < patch_size → nonempty image → has_confidence model class_index conf →
  ∀ w, ∃ w',
    get_sensitivity_map grey zero sub interpolate self model image class_index patch_size w
      = (Some (resized interpolate (delta_grid grey sub conf image patch_size) image), w') ∧
    calls w' = calls w ++ calls_of grey image patch_size.
Proof.
  intros Hp [H0 H1] Hconf w.
  destruct (sensitivity_grid_closed self model image class_index patch_size conf Hp Hconf w)
    as (w' & Hgrid & Hcalls).
  destruct (get_sensitivity_map_run grey zero sub interpolate self model image class_index
              patch_size Hp H0 H1 (has_confidence_valid _ _ _ Hconf) w)
    as (sm & w'' & Hgrid' & Hmap).
  rewrite Hgrid in Hgrid'. injection Hgrid' as <- <-.
  exists w'. by rewrite Hmap.
Qed.

(** X1. A patch size of 0 makes [math.ceil(image.shape[0] / patch_size)]
    raise: [get_sensitivity_map] raises before any inference, leaving the
    model and the record of calls as they were. *)
Theorem X1_zero_patch_size_raises_before_inference self model image class_index w :
  get_sensitivity_map grey zero sub interpolate self model image class_index 0 w = (None, w).
Proof. done. Qed.

(** X2. When the model has no output at [class_index] for the image (the
    index is out of range, or the model returns no prediction),
    [get_sensitivity_map] raises right after the baseline inference: that
    call is the only one made and no occluded image is ever built. *)
Theorem X2_missing_class_raises_after_baseline self model image class_index patch_size w :
  0 < patch_size →
  answer model [image] class_index (model_state w) = None →
  get_sensitivity_map grey zero sub interpolate self model image class_index patch_size w
    = (None, World (predict model [image] (Some 1) (model_state w)).2
                   (calls w ++ [call_on image])).
Proof.
  intros Hp Hnone. unfold get_sensitivity_map, sensitivity_grid.
  apply bind_raises.
  rewrite (bind_returns _ _ _ _ _ (math_ceil_div_run _ _ _ Hp)).
  rewrite (bind_returns _ _ _ _ _ (math_ceil_div_run _ _ _ Hp)).
  apply bind_raises. by rewrite target_confidence_run, Hnone.
Qed.

(** X3. For an image without rows or without columns, [get_sensitivity_map]
    still runs the baseline inference, sweeps nothing, and raises in
    [cv2.resize]: the baseline call is the only call. *)
Theorem X3_empty_image_raises_in_resize self model image class_index patch_size w :
  0 < patch_size → valid_class model class_index →
  shape0 image = 0 ∨ shape1 image = 0 →
  ∃ w',
    get_sensitivity_map grey zero sub interpolate self model image class_index patch_size w
      = (None, w') ∧
    calls w' = calls w ++ [call_on image].
Proof.
  intros Hp Hvalid Hempty.
  destruct (sensitivity_grid_run grey zero sub self model image class_index patch_size Hp
              Hvalid w)
    as (base & sm & w' & Hrun & _ & Hshape & Hcalls & _).
  assert (patches grey image patch_size = []) as Hpatches.
  { apply nil_length_inv. rewrite length_patches.
    destruct Hempty as [-> | ->]; rewrite ceil_div_0 by done; lia. }
  exists w'. rewrite Hcalls, Hpatches. split; [|done].
  unfold get_sensitivity_map. rewrite (bind_returns _ _ _ _ _ Hrun).
  unfold cv2_resize. rewrite decide_True; [done|]. lia.
Qed.

(** X4. The map before the resize as the code computes it, for a model
    with confidence function [conf]: it has [ceil(H / patch_size)] rows and
    [ceil(W / patch_size)] columns, and the cell in row [iy], column [ix]
    holds the baseline minus the confidence on
    [apply_grey_patch(image, iy * patch_size, ix * patch_size, patch_size)]:
    the row index of the cell is used as the x of the patch and the column
    index as its y. *)
Theorem X4_cell_pairs_row_with_x self model image class_index patch_size conf :
  0 < patch_size → has_confidence model class_index conf →
  ∀ w, ∃ sensitivity_map w',
    sensitivity_grid grey zero sub self model image class_index patch_size w
      = (Some sensitivity_map, w') ∧
    sensitivity_map = delta_grid grey sub conf image patch_size ∧
    has_shape (ceil_div (shape0 image) patch_size) (ceil_div (shape1 image) patch_size)
      sensitivity_map ∧
    ∀ iy ix,
      iy < ceil_div (shape0 image) patch_size →
      ix < ceil_div (shape1 image) patch_size →
      cell sensitivity_map iy ix =
        Some (sub (conf image)
                  (conf (apply_grey_patch grey image (iy * patch_size) (ix * patch_size)
                           patch_size))).
Proof.
  intros Hp Hconf w.
  destruct (sensitivity_grid_closed self model image class_index patch_size conf Hp Hconf w)
    as (w' & Hgrid & _).
  exists (delta_grid grey sub conf image patch_size), w'.
  split; [done|]. split; [done|]. split; [apply delta_grid_shape|].
  intros iy ix. apply cell_delta_grid.
Qed.

(** X5. For an image that is not empty, the returned map has as many rows
    as the image is wide and as many columns as it is high, and its value
    at row [r], column [c] is the interpolation of the map before the
    resize at that position of a destination of [W] rows and [H] columns. *)
Theorem X5_returned_map_is_width_by_height self model image class_index patch_size conf :
  0 < patch_size → nonempty image → has_confidence model class_index conf →
  ∀ w, ∃ returned w',
    get_sensitivity_map grey zero sub interpolate self model image class_index patch_size w
      = (Some returned, w') ∧
    has_shape (shape1 image) (shape0 image) returned ∧
    ∀ r c, r < shape1 image → c < shape0 image →
      cell returned r c =
        Some (interpolate (delta_grid grey sub conf image patch_size)
                (shape1 image) (shape0 image) r c).
Proof.
  intros Hp Hne Hconf w.
  destruct (get_sensitivity_map_closed self model image class_index patch_size conf Hp Hne
              Hconf w) as (w' & Hmap & _).
  eexists _, w'. split; [done|]. unfold resized. split.
  - split; [by rewrite length_fmap, length_seq|].
    apply Forall_fmap, Forall_forall. intros r _. simpl.
    by rewrite length_fmap, length_seq.
  - intros r c Hr Hc. unfold cell.
    rewrite list_lookup_fmap, lookup_seq_lt by done. simpl.
    by rewrite list_lookup_fmap, lookup_seq_lt.
Qed.

(** A patch whose rows or columns all lie beyond the image changes
    nothing. *)
Lemma apply_grey_patch_outside image top_left_x top_left_y patch_size :
  rectangular image →
  shape0 image ≤ top_left_y ∨ shape1 image ≤ top_left_x →
  apply_grey_patch grey image top_left_x top_left_y patch_size = image.
Proof.
  intros Hrect Hout. unfold apply_grey_patch.
  rewrite <-(list_fmap_id image) at 2. rewrite <-imap_const.
  apply imap_ext. intros r row Hrow. simpl.
  assert (length row = shape1 image) as Hlen by apply (Forall_lookup_1 _ _ _ _ Hrect Hrow).
  apply lookup_lt_Some in Hrow. unfold shape0 in Hout.
  rewrite <-(list_fmap_id row) at 2. rewrite <-imap_const.
  apply imap_ext. intros c px Hpx. simpl.
  apply lookup_lt_Some in Hpx. unfold in_slice.
  destruct Hout.
  - by rewrite (bool_decide_eq_false_2 (top_left_y ≤ r ∧ _)) by lia.
  - rewrite (bool_decide_eq_false_2 (top_left_x ≤ c ∧ _)) by lia.
    by rewrite andb_false_r.
Qed.

(** X6. A patch size that is at least the height and the width of the
    image gives a map of a single cell before the resize, after exactly two
    inferences: one on the image and one on the image occluded as a
    whole. *)
Theorem X6_oversized_patch_single_cell self model image class_index patch_size conf :
  nonempty image → rectangular image →
  shape0 image ≤ patch_size → shape1 image ≤ patch_size →
  has_confidence model class_index conf →
  ∀ w, ∃ w',
    sensitivity_grid grey zero sub self model image class_index patch_size w
      = (Some [[sub (conf image) (conf (occlude_all grey image))]], w') ∧
    calls w' = calls w ++ [call_on image; call_on (occlude_all grey image)].
Proof.
  intros [H0 H1] Hrect Hle0 Hle1 Hconf w.
  assert (0 < patch_size) as Hp by lia.
  destruct (sensitivity_grid_closed self model image class_index patch_size conf Hp Hconf w)
    as (w' & Hgrid & Hcalls).
  exists w'. rewrite Hgrid, Hcalls. unfold delta_grid, calls_of, patches.
  rewrite !range_0, !ceil_div_small by done. simpl.
  by rewrite apply_grey_patch_all.
Qed.

(** X7. On an image that is not square the sweep asks for patches that lie
    wholly outside the image, since [top_left_y] runs over the width and
    [top_left_x] over the height: for a cell whose column index times the
    patch size reaches the height, or whose row index times the patch size
    reaches the width, the model sees the unmodified image and the cell
    holds the baseline minus the baseline. *)
Theorem X7_patch_outside_image_leaves_baseline self model image class_index patch_size
    conf iy ix :
  0 < patch_size → rectangular image → has_confidence model class_index conf →
  iy < ceil_div (shape0 image) patch_size →
  ix < ceil_div (shape1 image) patch_size →
  shape0 image ≤ ix * patch_size ∨ shape1 image ≤ iy * patch_size →
  apply_grey_patch grey image (iy * patch_size) (ix * patch_size) patch_size = image ∧
  ∀ w, ∃ sensitivity_map w',
    sensitivity_grid grey zero sub self model image class_index patch_size w
      = (Some sensitivity_map, w') ∧
    cell sensitivity_map iy ix = Some (sub (conf image) (conf image)).
Proof.
  intros Hp Hrect Hconf Hy Hx Hout.
  assert (apply_grey_patch grey image (iy * patch_size) (ix * patch_size) patch_size = image)
    as Hsame by (by apply apply_grey_patch_outside).
  split; [done|]. intros w.
  destruct (sensitivity_grid_closed self model image class_index patch_size conf Hp Hconf w)
    as (w' & Hgrid & _).
  eexists _, w'. split; [done|]. by rewrite cell_delta_grid, Hsame.
Qed.

(** ** Further properties of [explain] *)

(** A comprehension over the images that succeeds on every image. *)
Lemma mapM_run {A B} (f : A → M B) (g : A → B) (tr : A → list (@call pixel)) l :
  (∀ x, x ∈ l → ∀ w, ∃ w', f x w = (Some (g x), w') ∧ calls w' = calls w ++ tr x) →
  ∀ w, ∃ w', mapM f l w = (Some (g <$> l), w') ∧ calls w' = calls w ++ (l ≫= tr).
Proof.
  induction l as [|x l IH]; intros Hf w.
  - exists w. by rewrite app_nil_r.
  - destruct (Hf x ltac:(left) w) as (w1 & Hx & Hcalls1).
    destruct (IH (λ y Hy, Hf y ltac:(by right)) w1) as (w2 & Hl & Hcalls2).
    exists w2. rewrite bind_cons, Hcalls2, Hcalls1, (assoc_L (++)). split; [|done].
    change (mapM f (x :: l)) with (y ← f x; k ← mapM f l; mret (y :: k)).
    rewrite (bind_returns _ _ _ _ _ Hx). by rewrite (bind_returns _ _ _ _ _ Hl).
Qed.

(** A comprehension that raises on one element stops there. *)
Lemma mapM_raises {A B} (f : A → M B) (g : A → B) (tr : A → list (@call pixel))
    good bad rest (tr_bad : list (@call pixel)) :
  (∀ x, x ∈ good → ∀ w, ∃ w', f x w = (Some (g x), w') ∧ calls w' = calls w ++ tr x) →
  (∀ w, ∃ w', f bad w = (None, w') ∧ calls w' = calls w ++ tr_bad) →
  ∀ w, ∃ w',
    mapM f (good ++ bad :: rest) w = (None, w') ∧
    calls w' = calls w ++ (good ≫= tr) ++ tr_bad.
Proof.
  intros Hgood Hbad. induction good as [|x good IH]; intros w.
  - destruct (Hbad w) as (w' & Hrun & Hcalls). exists w'. split; [|done].
    change (mapM f ([] ++ bad :: rest))
      with (y ← f bad; k ← mapM f rest; mret (y :: k)).
    by apply bind_raises.
  - destruct (Hgood x ltac:(left) w) as (w1 & Hx & Hcalls1).
    destruct (IH (λ y Hy, Hgood y ltac:(by right)) w1) as (w2 & Hl & Hcalls2).
    exists w2. rewrite bind_cons, Hcalls2, Hcalls1, !(assoc_L (++)). split; [|done].
    change (mapM f ((x :: good) ++ bad :: rest))
      with (y ← f x; k ← mapM f (good ++ bad :: rest); mret (y :: k)).
    rewrite (bind_returns _ _ _ _ _ Hx). by apply bind_raises.
Qed.

Lemma zip_fmap_diag {A B} (g : A → B) (l : list A) :
  zip (g <$> l) l = (λ x, (g x, x)) <$> l.
Proof. by rewrite zip_with_fmap_l, zip_with_diag. Qed.

(** X8. Without images [explain] raises, at [sensitivity_maps[0]], before
    any inference. *)
Theorem X8_explain_no_images_raises self (labels : option (list label)) model class_index
    patch_size colormap w :
  explain grey zero sub interpolate heatmap_display grid_display heatmap_shape self ([], labels) model
    class_index patch_size colormap w = (None, w).
Proof. done. Qed.

(** X9. With a patch size of 0 [explain] raises before any inference,
    whatever the images. *)
Theorem X9_explain_zero_patch_size_raises self (images : list Image)
    (labels : option (list label)) model class_index colormap w :
  explain grey zero sub interpolate heatmap_display grid_display heatmap_shape self (images, labels) model
    class_index 0 colormap w = (None, w).
Proof. by destruct images. Qed.

(** The shape of the returned map. *)
Lemma resized_shape (src : ndarray2) image :
  0 < shape1 image →
  (shape0 (resized interpolate src image), shape1 (resized interpolate src image))
    = (shape1 image, shape0 image).
Proof.
  intros Hpos. unfold resized, shape0 at 1. rewrite length_fmap, length_seq. f_equal.
  destruct (shape1 image) as [|n]; [lia|]. simpl.
  by rewrite length_fmap, length_seq.
Qed.

(** [np.array] on arrays of one shape returns them. *)
Lemma np_array_run {A S} `{EqDecision S} (shape : A → S) (arrays : list A) (s : S) w :
  Forall (λ x, shape x = s) arrays → np_array shape arrays w = (Some arrays, w).
Proof.
  intros Hall. unfold np_array. destruct arrays as [|first rest]; [done|].
  apply Forall_cons_1 in Hall as [Hfirst Hrest].
  rewrite decide_True; [done|]. rewrite Hfirst. done.
Qed.

(** [np.array] on arrays of which one differs in shape from the first
    raises. *)
Lemma np_array_raises {A S} `{EqDecision S} (shape : A → S) (first : A) (rest : list A) w :
  Exists (λ x, shape x ≠ shape first) rest →
  np_array shape (first :: rest) w = (None, w).
Proof.
  intros Hex. unfold np_array. rewrite decide_False; [done|].
  intros Hall. apply Exists_exists in Hex as (x & Hin & Hne).
  by apply Hne, (proj1 (Forall_forall _ _) Hall).
Qed.

(** X10. On a list of images that is not empty, whose images are not empty
    and have one height and one width (so that their sensitivity maps
    stack), and whose heatmaps have one shape, [explain] returns the grid of
    the heatmaps in the order of the images, each heatmap made from the
    sensitivity map of its own image and that image; the inference calls
    are those of the first image, then those of the second, and so on. *)
Theorem X10_explain_composes_per_image self (images : list Image)
    (labels : option (list label)) model class_index patch_size colormap conf
    (height width : nat) (shape : list nat) :
  0 < patch_size → images ≠ [] → Forall nonempty images →
  Forall (λ image, shape0 image = height ∧ shape1 image = width) images →
  Forall (λ image,
            heatmap_shape
              (heatmap_display
                 (resized interpolate (delta_grid grey sub conf image patch_size) image)
                 image colormap) = shape) images →
  has_confidence model class_index conf →
  ∀ w, ∃ w',
    explain grey zero sub interpolate heatmap_display grid_display heatmap_shape self
      (images, labels) model class_index patch_size colormap w
      = (Some (grid_display
                 ((λ image,
                     heatmap_display
                       (resized interpolate (delta_grid grey sub conf image patch_size) image)
                       image colormap) <$> images)), w') ∧
    calls w' = calls w ++ (images ≫= λ image, calls_of grey image patch_size).
Proof.
  intros Hp Hne Hall Hsize Hheat Hconf w.
  destruct (mapM_run
              (λ image, get_sensitivity_map grey zero sub interpolate self model image
                          class_index patch_size)
              (λ image, resized interpolate (delta_grid grey sub conf image patch_size) image)
              (λ image, calls_of grey image patch_size) images) with (w := w)
    as (w' & Hmaps & Hcalls).
  { intros image Hin. apply get_sensitivity_map_closed; [done| |done].
    by apply (proj1 (Forall_forall _ _) Hall). }
  exists w'. split; [|done]. unfold explain.
  rewrite (bind_returns _ _ _ _ _ Hmaps).
  erewrite bind_returns; last first.
  { apply (np_array_run _ _ (width, height)). apply Forall_fmap, Forall_forall.
    intros image Hin. simpl.
    destruct (proj1 (Forall_forall _ _) Hsize image Hin) as [<- <-].
    apply resized_shape. by apply (proj1 (Forall_forall _ _) Hall). }
  destruct images as [|image images]; [done|].
  erewrite bind_returns; [|reflexivity].
  rewrite zip_fmap_diag, <-list_fmap_compose.
  erewrite bind_returns; last first.
  { apply (np_array_run _ _ shape). by apply Forall_fmap. }
  done.
Qed.

(** X13. When the images are not empty but one of them differs from the
    first in height or width, [explain] runs every inference for every
    image and then raises: [np.array] cannot stack sensitivity maps of
    different shapes. *)
Theorem X13_explain_raises_on_images_of_different_sizes self (first : Image)
    (rest : list Image) (labels : option (list label)) model class_index patch_size
    colormap conf :
  0 < patch_size → Forall nonempty (first :: rest) →
  Exists (λ image, (shape0 image, shape1 image) ≠ (shape0 first, shape1 first)) rest →
  has_confidence model class_index conf →
  ∀ w, ∃ w',
    explain grey zero sub interpolate heatmap_display grid_display heatmap_shape self
      (first :: rest, labels) model class_index patch_size colormap w = (None, w') ∧
    calls w' = calls w ++ ((first :: rest) ≫= λ image, calls_of grey image patch_size).
Proof.
  intros Hp Hall Hex Hconf w.
  destruct (mapM_run
              (λ image, get_sensitivity_map grey zero sub interpolate self model image
                          class_index patch_size)
              (λ image, resized interpolate (delta_grid grey sub conf image patch_size) image)
              (λ image, calls_of grey image patch_size) (first :: rest)) with (w := w)
    as (w' & Hmaps & Hcalls).
  { intros image Hin. apply get_sensitivity_map_closed; [done| |done].
    by apply (proj1 (Forall_forall _ _) Hall). }
  exists w'. split; [|done]. unfold explain.
  rewrite (bind_returns _ _ _ _ _ Hmaps). apply bind_raises.
  rewrite fmap_cons. apply np_array_raises.
  apply Exists_fmap, Exists_exists.
  apply Exists_exists in Hex as (image & Hin & Hne).
  exists image. split; [done|]. simpl.
  apply Forall_cons_1 in Hall as [[_ Hfirst] Hrest].
  destruct (proj1 (Forall_forall _ _) Hrest image Hin) as [_ Himage].
  rewrite !resized_shape by done. intros [= H1 H0]. apply Hne. congruence.
Qed.

(** X11. [explain] stops at the first image on which [get_sensitivity_map]
    raises: when an empty image follows images that are not empty,
    [explain] raises after the inferences for those and the baseline
    inference on the empty image, and no image after it is ever given to
    the model. *)
Theorem X11_explain_stops_at_first_failure self (good rest : list Image) (bad : Image)
    (labels : option (list label)) model class_index patch_size colormap conf :
  0 < patch_size → Forall nonempty good →
  shape0 bad = 0 ∨ shape1 bad = 0 →
  has_confidence model class_index conf →
  ∀ w, ∃ w',
    explain grey zero sub interpolate heatmap_display grid_display heatmap_shape self
      (good ++ bad :: rest, labels) model class_index patch_size colormap w = (None, w') ∧
    calls w' = calls w ++ (good ≫= λ image, calls_of grey image patch_size) ++ [call_on bad].
Proof.
  intros Hp Hall Hbad Hconf w.
  destruct (mapM_raises
              (λ image, get_sensitivity_map grey zero sub interpolate self model image
                          class_index patch_size)
              (λ image, resized interpolate (delta_grid grey sub conf image patch_size) image)
              (λ image, calls_of grey image patch_size) good bad rest [call_on bad])
    with (w := w) as (w' & Hmaps & Hcalls).
  { intros image Hin. apply get_sensitivity_map_closed; [done| |done].
    by apply (proj1 (Forall_forall _ _) Hall). }
  { intros w0.
    destruct (sensitivity_grid_run grey zero sub self model bad class_index patch_size Hp
                (has_confidence_valid _ _ _ Hconf) w0)
      as (base & sm & w1 & Hrun & _ & _ & Hcalls & _).
    assert (patches grey bad patch_size = []) as Hpatches.
    { apply nil_length_inv. rewrite length_patches.
      destruct Hbad as [-> | ->]; rewrite ceil_div_0 by done; lia. }
    exists w1. rewrite Hcalls, Hpatches. split; [|done].
    unfold get_sensitivity_map. rewrite (bind_returns _ _ _ _ _ Hrun).
    unfold cv2_resize. rewrite decide_True; [done|]. lia. }
  exists w'. split; [|done]. unfold explain. by apply bind_raises.
Qed.

(** X12. With a deterministic model the outcome of [explain] (the grid, or
    the failure) does not depend on the hidden state of the model: a second
    run on the same data gives what the first gave. *)
Theorem X12_explain_deterministic self (validation_data : list Image * option (list label))
    model class_index patch_size colormap :
  deterministic model →
  ∀ w1 w2,
    (explain grey zero sub interpolate heatmap_display grid_display heatmap_shape self validation_data
       model class_index patch_size colormap w1).1
    = (explain grey zero sub interpolate heatmap_display grid_display heatmap_shape self validation_data
         model class_index patch_size colormap w2).1.
Proof.
  intros Hdet. unfold explain. destruct validation_data as [images labels].
  apply stable_bind.
  - apply stable_mapM. intros image.
    by apply (stable_get_sensitivity_map grey zero sub interpolate).
  - intros sensitivity_maps.
    apply stable_bind; [apply stable_np_array|]. intros stacked.
    apply stable_bind; [apply stable_getitem|]. intros _.
    apply stable_bind; [apply stable_np_array|]. intros heatmaps.
    apply stable_bind; [apply stable_getitem|]. intros _. apply stable_ret.
Qed.

End further.

Lemma uniform_image_nonempty : nonempty Example.uniform_image.
Proof. split; simpl; lia. Defined.

Lemma wide_image_nonempty : nonempty Example.wide_image.
Proof. split; simpl; lia. Defined.

Lemma wide_image_rectangular : rectangular Example.wide_image.
Proof. repeat constructor. Defined.

(** X2 for the model of two classes and class index 2. *)
Lemma X2_missing_class_raises_after_baseline_witness :
  0 < 2 ∧
  answer Example.constant_model [Example.uniform_image] 2 (model_state Example.start) = None ∧
  get_sensitivity_map Example.grey 0%float PrimFloat.sub Example.bilinear Example.self
    Example.constant_model Example.uniform_image 2 2 Example.start
    = (None, World 1 [call_on Example.uniform_image]).
Proof.
  split; [lia|]. split; [done|].
  apply (X2_missing_class_raises_after_baseline Example.grey 0%float PrimFloat.sub
           Example.bilinear Example.self Example.constant_model Example.uniform_image 2 2
           Example.start); [lia|done].
Defined.

(** X3 for the image without rows. *)
Lemma X3_empty_image_raises_in_resize_witness :
  0 < 2 ∧ valid_class Example.constant_model 1 ∧ shape0 Scenario.empty_image = 0 ∧
  ∃ w',
    get_sensitivity_map Example.grey 0%float PrimFloat.sub Example.bilinear Example.self
      Example.constant_model Scenario.empty_image 1 2 Example.start = (None, w') ∧
    calls w' = [call_on Scenario.empty_image].
Proof.
  assert (valid_class Example.constant_model 1) as Hvalid.
  { apply (has_confidence_valid _ _ _ constant_model_confidence). }
  split; [lia|]. split; [done|]. split; [done|].
  apply (X3_empty_image_raises_in_resize Example.grey 0%float PrimFloat.sub Example.bilinear
           Example.self Example.constant_model Scenario.empty_image 1 2 Example.start);
    [lia|done|by left].
Defined.

(** X4 on the 2x2 image with patch size 1: the delta of the patch at
    x = 1, y = 0 is in row 1, column 0. *)
Lemma X4_cell_pairs_row_with_x_witness :
  0 < 1 ∧ has_confidence Example.pixel_model 0 Example.pixel_confidence ∧
  ∃ sensitivity_map w',
    sensitivity_grid Example.grey 0%float PrimFloat.sub Example.self Example.pixel_model
      Example.square_image 0 1 Example.start = (Some sensitivity_map, w') ∧
    cell sensitivity_map 1 0 = Some (-0.248046875)%float.
Proof.
  split; [lia|]. split; [apply pixel_model_confidence|].
  destruct (X4_cell_pairs_row_with_x Example.grey 0%float PrimFloat.sub Example.self
              Example.pixel_model Example.square_image 0 1 Example.pixel_confidence
              ltac:(lia) pixel_model_confidence Example.start)
    as (sm & w' & Hrun & _ & _ & Hcells).
  exists sm, w'. split; [done|]. rewrite (Hcells 1 0) by (vm_compute; lia).
  by vm_compute.
Defined.

(** X5 on the image of height 2 and width 4. *)
Lemma X5_returned_map_is_width_by_height_witness :
  0 < 2 ∧ nonempty Example.wide_image ∧
  has_confidence Example.constant_model 1 (λ _, 0.9%float) ∧
  ∃ returned w',
    get_sensitivity_map Example.grey 0%float PrimFloat.sub Example.bilinear Example.self
      Example.constant_model Example.wide_image 1 2 Example.start = (Some returned, w') ∧
    has_shape 4 2 returned.
Proof.
  split; [lia|]. split; [apply wide_image_nonempty|].
  split; [apply constant_model_confidence|].
  destruct (X5_returned_map_is_width_by_height Example.grey 0%float PrimFloat.sub
              Example.bilinear Example.self Example.constant_model Example.wide_image 1 2
              (λ _, 0.9%float) ltac:(lia) wide_image_nonempty constant_model_confidence
              Example.start)
    as (returned & w' & Hrun & Hshape & _).
  by exists returned, w'.
Defined.

(** X6 on the 3x3 image with patch size 5. *)
Lemma X6_oversized_patch_single_cell_witness :
  (nonempty Example.odd_image ∧ rectangular Example.odd_image) ∧
  (shape0 Example.odd_image ≤ 5 ∧ shape1 Example.odd_image ≤ 5) ∧
  has_confidence Example.pixel_model 0 Example.pixel_confidence ∧
  ∃ w',
    sensitivity_grid Example.grey 0%float PrimFloat.sub Example.self Example.pixel_model
      Example.odd_image 0 5 Example.start = (Some [[(-0.107421875)%float]], w') ∧
    length (calls w') = 2.
Proof.
  assert (nonempty Example.odd_image) as Hne by (split; simpl; lia).
  split; [split; [done|apply odd_image_rectangular]|].
  split; [simpl; lia|]. split; [apply pixel_model_confidence|].
  destruct (X6_oversized_patch_single_cell Example.grey 0%float PrimFloat.sub Example.self
              Example.pixel_model Example.odd_image 0 5 Example.pixel_confidence Hne
              odd_image_rectangular ltac:(simpl; lia) ltac:(simpl; lia)
              pixel_model_confidence Example.start) as (w' & Hrun & Hcalls).
  exists w'. rewrite Hrun, Hcalls. split; [|done]. by vm_compute.
Defined.

(** X7 on the image of height 2 and width 4 with patch size 2: the patch
    of the cell in row 0, column 1 starts at row 2, below the image. *)
Lemma X7_patch_outside_image_leaves_baseline_witness :
  (0 < 2 ∧ rectangular Example.wide_image) ∧
  has_confidence Example.pixel_model 0 Example.pixel_confidence ∧
  (0 < ceil_div (shape0 Example.wide_image) 2 ∧ 1 < ceil_div (shape1 Example.wide_image) 2) ∧
  shape0 Example.wide_image ≤ 1 * 2 ∧
  apply_grey_patch Example.grey Example.wide_image (0 * 2) (1 * 2) 2 = Example.wide_image ∧
  ∃ sensitivity_map w',
    sensitivity_grid Example.grey 0%float PrimFloat.sub Example.self Example.pixel_model
      Example.wide_image 0 2 Example.start = (Some sensitivity_map, w') ∧
    cell sensitivity_map 0 1 = Some 0%float.
Proof.
  split; [split; [lia|apply wide_image_rectangular]|].
  split; [apply pixel_model_confidence|].
  split; [vm_compute; lia|]. split; [simpl; lia|].
  destruct (X7_patch_outside_image_leaves_baseline Example.grey 0%float PrimFloat.sub
              Example.self Example.pixel_model Example.wide_image 0 2
              Example.pixel_confidence 0 1 ltac:(lia) wide_image_rectangular
              pixel_model_confidence ltac:(vm_compute; lia) ltac:(vm_compute; lia)
              ltac:(left; simpl; lia)) as [Hsame Hcell].
  split; [done|]. destruct (Hcell Example.start) as (sm & w' & Hrun & Hsm).
  exists sm, w'. split; [done|]. rewrite Hsm. by vm_compute.
Defined.

(** X10 on two 4x4 images: two heatmaps, after 5 inferences for the first
    image and 5 for the second. *)
Lemma X10_explain_composes_per_image_witness :
  (0 < 2 ∧ [Example.uniform_image; Scenario.dark_image] ≠ []) ∧
  Forall nonempty [Example.uniform_image; Scenario.dark_image] ∧
  Forall (λ image : list (list (list float)), shape0 image = 4 ∧ shape1 image = 4)
    [Example.uniform_image; Scenario.dark_image] ∧
  has_confidence Example.constant_model 1 (λ _, 0.9%float) ∧
  ∃ heatmaps w',
    explain Example.grey 0%float PrimFloat.sub Example.bilinear Scenario.heatmap_display
      Scenario.grid_display Scenario.heatmap_shape Example.self
      ([Example.uniform_image; Scenario.dark_image], @None (list nat))
      Example.constant_model 1 2 COLORMAP_VIRIDIS Example.start = (Some heatmaps, w') ∧
    heatmaps.*1.*2 = [Example.uniform_image; Scenario.dark_image] ∧
    length (calls w') = 10.
Proof.
  assert (Forall nonempty [Example.uniform_image; Scenario.dark_image]) as Hall.
  { repeat constructor; simpl; lia. }
  assert (Forall (λ image : list (list (list float)), shape0 image = 4 ∧ shape1 image = 4)
            [Example.uniform_image; Scenario.dark_image]) as Hsize.
  { by repeat constructor. }
  split; [split; [lia|done]|]. split; [done|]. split; [done|].
  split; [apply constant_model_confidence|].
  destruct (X10_explain_composes_per_image Example.grey 0%float PrimFloat.sub
              Example.bilinear Scenario.heatmap_display Scenario.grid_display
              Scenario.heatmap_shape Example.self
              [Example.uniform_image; Scenario.dark_image] (@None (list nat))
              Example.constant_model 1 2 COLORMAP_VIRIDIS (λ _, 0.9%float) 4 4 [4; 4; 3]
              ltac:(lia) ltac:(done) Hall Hsize ltac:(by repeat constructor)
              constant_model_confidence Example.start)
    as (w' & Hrun & Hcalls).
  eexists _, w'. split; [exact Hrun|]. split; [done|]. by rewrite Hcalls.
Defined.

(** X13 on the 4x4 image followed by the image of height 2 and width 4:
    [explain] raises after the 5 and 3 inferences. *)
Lemma X13_explain_raises_on_images_of_different_sizes_witness :
  0 < 2 ∧
  Forall nonempty [Example.uniform_image; Example.wide_image] ∧
  (shape0 Example.wide_image, shape1 Example.wide_image)
    ≠ (shape0 Example.uniform_image, shape1 Example.uniform_image) ∧
  has_confidence Example.constant_model 1 (λ _, 0.9%float) ∧
  ∃ w',
    explain Example.grey 0%float PrimFloat.sub Example.bilinear Scenario.heatmap_display
      Scenario.grid_display Scenario.heatmap_shape Example.self
      ([Example.uniform_image; Example.wide_image], @None (list nat))
      Example.constant_model 1 2 COLORMAP_VIRIDIS Example.start = (None, w') ∧
    length (calls w') = 8.
Proof.
  assert (Forall nonempty [Example.uniform_image; Example.wide_image]) as Hall.
  { repeat constructor; simpl; lia. }
  assert ((shape0 Example.wide_image, shape1 Example.wide_image)
            ≠ (shape0 Example.uniform_image, shape1 Example.uniform_image)) as Hne.
  { by vm_compute. }
  split; [lia|]. split; [done|]. split; [done|].
  split; [apply constant_model_confidence|].
  destruct (X13_explain_raises_on_images_of_different_sizes Example.grey 0%float
              PrimFloat.sub Example.bilinear Scenario.heatmap_display Scenario.grid_display
              Scenario.heatmap_shape Example.self Example.uniform_image
              [Example.wide_image] (@None (list nat)) Example.constant_model 1 2
              COLORMAP_VIRIDIS (λ _, 0.9%float) ltac:(lia) Hall
              ltac:(by apply Exists_cons_hd) constant_model_confidence Example.start)
    as (w' & Hrun & Hcalls).
  exists w'. split; [exact Hrun|]. by rewrite Hcalls.
Defined.

(** X11 on the 4x4 image, the image without rows and the 3x3 image: five
    inferences for the first, one for the second, none for the third. *)
Lemma X11_explain_stops_at_first_failure_witness :
  (0 < 2 ∧ Forall nonempty [Example.uniform_image]) ∧
  shape0 Scenario.empty_image = 0 ∧
  has_confidence Example.constant_model 1 (λ _, 0.9%float) ∧
  ∃ w',
    explain Example.grey 0%float PrimFloat.sub Example.bilinear Scenario.heatmap_display
      Scenario.grid_display Scenario.heatmap_shape Example.self
      ([Example.uniform_image; Scenario.empty_image; Example.odd_image], @None (list nat))
      Example.constant_model 1 2 COLORMAP_VIRIDIS Example.start = (None, w') ∧
    length (calls w') = 6.
Proof.
  assert (Forall nonempty [Example.uniform_image]) as Hall.
  { repeat constructor; simpl; lia. }
  split; [split; [lia|done]|]. split; [done|].
  split; [apply constant_model_confidence|].
  destruct (X11_explain_stops_at_first_failure Example.grey 0%float PrimFloat.sub
              Example.bilinear Scenario.heatmap_display Scenario.grid_display Scenario.heatmap_shape
              Example.self
              [Example.uniform_image] [Example.odd_image] Scenario.empty_image
              (@None (list nat)) Example.constant_model 1 2 COLORMAP_VIRIDIS
              (λ _, 0.9%float) ltac:(lia) Hall ltac:(by left) constant_model_confidence
              Example.start)
    as (w' & Hrun & Hcalls).
  exists w'. split; [exact Hrun|]. by rewrite Hcalls.
Defined.

(** X12 for the constant model, from two different hidden states. *)
Lemma X12_explain_deterministic_witness :
  deterministic Example.constant_model ∧
  (explain Example.grey 0%float PrimFloat.sub Example.bilinear Scenario.heatmap_display
     Scenario.grid_display Scenario.heatmap_shape Example.self ([Example.odd_image], @None (list nat))
     Example.constant_model 1 2 COLORMAP_VIRIDIS Example.start).1
  = (explain Example.grey 0%float PrimFloat.sub Example.bilinear Scenario.heatmap_display
       Scenario.grid_display Scenario.heatmap_shape Example.self ([Example.odd_image], @None (list nat))
       Example.constant_model 1 2 COLORMAP_VIRIDIS (World 7 [])).1.
Proof.
  split; [apply constant_model_deterministic|].
  apply (X12_explain_deterministic Example.grey 0%float PrimFloat.sub Example.bilinear
           Scenario.heatmap_display Scenario.grid_display Scenario.heatmap_shape
              Example.self
           ([Example.odd_image], @None (list nat)) Example.constant_model 1 2
           COLORMAP_VIRIDIS constant_model_deterministic).
Defined.
